(** * hk-mnist: the MNIST notebook (mnist.ipynb)

    A shallow embedding of the notebook's index arithmetic (train/validation
    split, batch generator) and of its loss and accuracy functions, with the
    properties of the written specification stated over it.

    Python integers are [Z]; Python floats are IEEE binary64 values, taken
    from the executable specification [SpecFloat]; NumPy arrays are lists of
    rows; exceptions are a sum type.  NumPy's random generator, Haiku's
    layers and the arithmetic of JAX arrays are library code: they enter
    through the interfaces [NumpyRandom], [Haiku] and [Scalar]. *)

From Stdlib Require Import ZArith QArith Qround Qpower Lia Lqa.
From Stdlib Require Import Floats.SpecFloat.
From stdpp Require Import base tactics option list.

Open Scope Z_scope.

(** ** Python values and exceptions *)

Module Py.

Inductive exn : Type :=
| ZeroDivisionError
| ValueError
| OverflowError
| IndexError
| ShapeError      (* incompatible shapes for broadcasting *)
| StopIteration.

Inductive result (A : Type) : Type :=
| Ok (a : A)
| Raise (e : exn).
Arguments Ok {A} a.
Arguments Raise {A} e.

#[global] Instance result_ret : MRet result := fun A a => Ok a.
#[global] Instance result_bind : MBind result := fun A B f m =>
  match m with
  | Ok a => f a
  | Raise e => Raise e
  end.

(** [all_ok [m1; ...; mk]] evaluates left to right and stops at the first
    exception. *)
Fixpoint all_ok {A} (ms : list (result A)) : result (list A) :=
  match ms with
  | [] => Ok []
  | m :: ms' => a ← m; l ← all_ok ms'; Ok (a :: l)
  end.

(** [divmod(a, b)]: floor division, the remainder has the divisor's sign. *)
Definition divmod (a b : Z) : result (Z * Z) :=
  if b =? 0 then Raise ZeroDivisionError else Ok (a / b, a mod b).

(** [bool(z)] for an integer, and a [bool] used as an integer in [+]. *)
Definition bool (z : Z) : Datatypes.bool := negb (z =? 0).
Definition int_of_bool (b : Datatypes.bool) : Z := if b then 1 else 0.

(** A slice bound [k] against a sequence of length [len]: negative bounds
    count from the end, and every bound is clamped to [0..len]. *)
Definition slice_bound (len : nat) (k : Z) : nat :=
  Z.to_nat (if k <? 0 then Z.max 0 (Z.of_nat len + k) else Z.min k (Z.of_nat len)).

(** [l[lo:hi]], [l[:hi]] and [l[lo:]]. *)
Definition slice {A} (l : list A) (lo hi : Z) : list A :=
  let lo' := slice_bound (length l) lo in
  let hi' := slice_bound (length l) hi in
  take (hi' - lo')%nat (drop lo' l).
Definition slice_to {A} (l : list A) (hi : Z) : list A :=
  take (slice_bound (length l) hi) l.
Definition slice_from {A} (l : list A) (lo : Z) : list A :=
  drop (slice_bound (length l) lo) l.

(** The positions of a sequence of length [len] that [l[:hi]] and [l[lo:]]
    select. *)
Definition slice_to_indices (len : nat) (hi : Z) : list nat :=
  seq 0 (slice_bound len hi).
Definition slice_from_indices (len : nat) (lo : Z) : list nat :=
  seq (slice_bound len lo) (len - slice_bound len lo).

(** [a[i]] for one row, and NumPy's [a[idx]] for an index array [idx]. *)
Definition item {A} (l : list A) (i : nat) : result A :=
  match l !! i with
  | Some a => Ok a
  | None => Raise IndexError
  end.
Definition take_rows {A} (l : list A) (idx : list nat) : result (list A) :=
  all_ok (map (item l) idx).

End Py.
Export Py.

(** ** Python floats: IEEE binary64 *)

Module Float64.

Definition prec : Z := 53.
Definition emax : Z := 1024.

Definition float : Type := spec_float.

(** [float(n)], as in [n * x] for an integer [n] and a float [x]. *)
Definition of_int (n : Z) : result float :=
  match binary_normalize prec emax n 0 false with
  | S754_infinity _ => Raise OverflowError
  | x => Ok x
  end.

Definition mul (x y : float) : float := SFmul prec emax x y.

(** The integer part of [m * 2^e], rounding towards zero. *)
Definition trunc_mag (m : positive) (e : Z) : Z :=
  match e with
  | Z0 => Z.pos m
  | Z.pos p => Z.pos m * 2 ^ Z.pos p
  | Z.neg p => Z.pos m / 2 ^ Z.pos p
  end.

(** [int(x)]: truncation towards zero. *)
Definition to_int (x : float) : result Z :=
  match x with
  | S754_zero _ => Ok 0
  | S754_infinity _ => Raise OverflowError
  | S754_nan => Raise ValueError
  | S754_finite s m e => Ok (if s then - trunc_mag m e else trunc_mag m e)
  end.

(** [n * x] for an integer [n] and a float [x]. *)
Definition int_mul (n : Z) (x : float) : result float :=
  nf ← of_int n; Ok (mul nf x).

(** The literal [0.2], that is [0x1.999999999999ap-3]. *)
Definition lit_0_2 : float := S754_finite false 7205759403792794 (-55).

(** The exact value of a finite float as a rational, and the floor of it. *)
Definition to_Q (x : float) : option Q :=
  match x with
  | S754_zero _ => Some 0%Q
  | S754_finite s m e =>
      let mag := (inject_Z (Z.pos m) * Qpower 2 e)%Q in
      Some (if s then (- mag)%Q else mag)
  | _ => None
  end.
Definition floor (x : float) : option Z :=
  q ← to_Q x; Some (Qfloor q).

Definition nonneg (x : float) : Prop :=
  match x with
  | S754_zero _ => True
  | S754_finite s _ _ => s = false
  | S754_infinity s => s = false
  | S754_nan => False
  end.

(** A fraction: a finite float whose exact value lies between 0 and 1. *)
Definition is_fraction (x : float) : Prop :=
  exists q, to_Q x = Some q /\ (0 <= q <= 1)%Q.

(** [bounded_by N x]: [x] is zero or a positive finite float [m * 2^e],
    [e <= 0], of value at most [N]. *)
Definition bounded_by (N : Z) (x : float) : Prop :=
  match x with
  | S754_zero _ => True
  | S754_finite s m e => s = false /\ e <= 0 /\ Z.pos m <= N * 2 ^ (- e)
  | _ => False
  end.

(** A shift record that has lost no bit so far. *)
Definition exact (mrs : shr_record) : Prop :=
  shr_r mrs = false /\ shr_s mrs = false.

End Float64.

(** ** The dataset and the split (notebook cell 4) *)

Section Split.
Context {Image Label : Type}.

Record Config : Type := {
  batch_size : Z;
  validation_split : Float64.float
}.

(** The globals that cell 4 leaves behind. *)
Record Env : Type := {
  train_samples : Z;
  val_samples : Z;
  train_images : list Image;
  val_images : list Image;
  train_labels : list Label;
  val_labels : list Label;
  num_batches : Z
}.

(** [val_samples = int(train_samples * validation_split)] *)
Definition compute_val_samples (n : Z) (f : Float64.float) : result Z :=
  p ← Float64.int_mul n f; Float64.to_int p.

(** Cell 4, after [datasets.mnist()] has returned the two training arrays. *)
Definition split (cfg : Config) (images : list Image) (labels : list Label)
  : result Env :=
  let n := Z.of_nat (length images) in
  v ← compute_val_samples n (validation_split cfg);
  let ts := n - v in
  '(num_complete_batches, leftover) ← Py.divmod ts (batch_size cfg);
  Ok {| train_samples := ts;
        val_samples := v;
        train_images := Py.slice_to images ts;
        val_images := Py.slice_from images ts;
        train_labels := Py.slice_to labels ts;
        val_labels := Py.slice_from labels ts;
        num_batches := num_complete_batches + Py.int_of_bool (Py.bool leftover) |}.

End Split.
Arguments Env : clear implicits.

(** ** NumPy's random generator *)

(** [npr.RandomState(seed)] and [rng.permutation(n)].  The generator is
    library code; what the notebook relies on is that [permutation n]
    returns a rearrangement of [0 .. n-1] and advances the generator. *)
Class NumpyRandom : Type := {
  RandomState : Type;
  seed_state : Z -> RandomState;
  permutation : RandomState -> nat -> list nat * RandomState;
  permutation_perm : forall s n, fst (permutation s n) ≡ₚ seq 0 n
}.

(** [rng.permutation(n)] for a Python integer: the shuffled [np.arange(n)],
    which is empty when [n] is zero or negative.  NumPy has to allocate
    the [n] indices and raises when it cannot; this is not modelled, the
    call is taken to succeed.  Statements about which exception the
    generator raises are therefore made only for counts that are at most
    the number of rows of an array the program already holds. *)
Definition np_permutation `{NR : NumpyRandom} (rng : RandomState) (n : Z)
  : list nat * RandomState :=
  permutation rng (Z.to_nat n).

(** ** The batch generator [data_stream] (notebook cell 4) *)

(** What one [next(...)] can do: yield, raise, or never return (the model
    runs out of fuel). *)
Inductive outcome (A : Type) : Type :=
| Yielded (a : A)
| Raised (e : exn)
| OutOfFuel.
Arguments Yielded {A} a.
Arguments Raised {A} e.
Arguments OutOfFuel {A}.

#[global] Instance outcome_ret : MRet outcome := fun A a => Yielded a.
#[global] Instance outcome_bind : MBind outcome := fun A B f m =>
  match m with
  | Yielded a => f a
  | Raised e => Raised e
  | OutOfFuel => OutOfFuel
  end.

Definition of_result {A} (r : result A) : outcome A :=
  match r with
  | Ok a => Yielded a
  | Raise e => Raised e
  end.

Section DataStream.
Context `{NR : NumpyRandom} {Image Label : Type}.
Variable cfg : Config.
Variable env : Env Image Label.

Definition batch : Type := list Image * list Label.

(** The frame of a generator object: not started yet, suspended at the
    [yield] of iteration [i] of the [for] loop, or finished by an
    exception. *)
Inductive gen_state : Type :=
| Created
| Suspended (rng : RandomState) (perm : list nat) (i : nat)
| Finished.

(** [data_stream()] only creates the generator object; the body runs at
    the first [next]. *)
Definition data_stream (_ : unit) : gen_state := Created.

(** [perm[i * batch_size : (i + 1) * batch_size]] *)
Definition batch_idx (perm : list nat) (i : nat) : list nat :=
  Py.slice perm (Z.of_nat i * batch_size cfg) ((Z.of_nat i + 1) * batch_size cfg).

(** [train_images[batch_idx], train_labels[batch_idx]] *)
Definition batch_at (perm : list nat) (i : nat) : result batch :=
  x ← Py.take_rows (train_images env) (batch_idx perm i);
  y ← Py.take_rows (train_labels env) (batch_idx perm i);
  Ok (x, y).

(** The [for i in range(num_batches)] loop entered (or re-entered) at [i]:
    [None] when the range is exhausted. *)
Definition for_loop (rng : RandomState) (perm : list nat) (i : nat)
  : option (outcome (batch * gen_state)) :=
  if Z.of_nat i <? num_batches env then
    Some (b ← of_result (batch_at perm i); Yielded (b, Suspended rng perm i))
  else None.

(** The [while True] loop; one unit of fuel per iteration. *)
Fixpoint while_true (fuel : nat) (rng : RandomState) : outcome (batch * gen_state) :=
  match fuel with
  | O => OutOfFuel
  | S fuel' =>
      let '(perm, rng') := np_permutation rng (train_samples env) in
      match for_loop rng' perm 0 with
      | Some o => o
      | None => while_true fuel' rng'
      end
  end.

(** [next(g)] *)
Definition next (fuel : nat) (g : gen_state) : outcome (batch * gen_state) :=
  match g with
  | Created => while_true fuel (seed_state 0)
  | Suspended rng perm i =>
      match for_loop rng perm (S i) with
      | Some o => o
      | None => while_true fuel rng
      end
  | Finished => Raised StopIteration
  end.

(** [n] successive calls of [next(g)], as the training driver makes them. *)
Fixpoint consume (fuel n : nat) (g : gen_state) : outcome (list batch * gen_state) :=
  match n with
  | O => Yielded ([], g)
  | S n' =>
      '(b, g') ← next fuel g;
      '(bs, g'') ← consume fuel n' g';
      Yielded (b :: bs, g'')
  end.

(** The [n]-th batch of a generator (counting from 0). *)
Definition nth_batch (fuel n : nat) (g : gen_state) : outcome batch :=
  '(_, g') ← consume fuel n g;
  '(b, _) ← next fuel g';
  Yielded b.

(** The generator state at the start of pass [k], and the permutation
    drawn for that pass. *)
Fixpoint epoch_rng (k : nat) : RandomState :=
  match k with
  | O => seed_state 0
  | S k' => snd (permutation (epoch_rng k') (Z.to_nat (train_samples env)))
  end.
Definition epoch_perm (k : nat) : list nat :=
  fst (permutation (epoch_rng k) (Z.to_nat (train_samples env))).

(** The index chunks of one pass, and the batches made of them. *)
Definition epoch_chunks (perm : list nat) : list (list nat) :=
  map (batch_idx perm) (seq 0 (Z.to_nat (num_batches env))).
Definition epoch_batches (perm : list nat) : result (list batch) :=
  all_ok (map (batch_at perm) (seq 0 (Z.to_nat (num_batches env)))).

(** Where the generator stands after [k] full passes. *)
Definition epoch_start (k : nat) : gen_state :=
  match k with
  | O => Created
  | S k' => Suspended (epoch_rng k) (epoch_perm k') (Z.to_nat (num_batches env) - 1)
  end.

End DataStream.

(** ** JAX arrays (notebook cells 5 and 6) *)

(** The element type of the arrays and its arithmetic.  [fgtb x y] is
    [x > y]; [of_nat n] is the count [n] as an array element. *)
Class Scalar (F : Type) : Type := {
  fzero : F;
  fone : F;
  fadd : F -> F -> F;
  fmul : F -> F -> F;
  fdiv : F -> F -> F;
  fneg : F -> F;
  fgtb : F -> F -> Datatypes.bool;
  of_nat : nat -> F
}.

Module Jnp.

Abbreviation vector F := (list F).
Abbreviation matrix F := (list (list F)).

Section Arrays.
Context {F : Type} `{SF : Scalar F}.
#[local] Abbreviation vector := (vector F).
#[local] Abbreviation matrix := (matrix F).

(** NumPy broadcasting along one axis: equal lengths pair up, a length-1
    operand is repeated, anything else is refused. *)
Definition broadcast {A B C} (f : A -> B -> C) (u : list A) (v : list B)
  : result (list C) :=
  if (length u =? length v)%nat then Ok (zip_with f u v)
  else match u, v with
       | [a], _ => Ok (map (f a) v)
       | _, [b] => Ok (map (fun a => f a b) u)
       | _, _ => Raise ShapeError
       end.

(** [a * b] for two 2-D arrays. *)
Definition multiply (a b : matrix) : result matrix :=
  rows ← broadcast (broadcast fmul) a b; all_ok rows.

(** [jnp.sum] of a vector, and [jnp.sum(a, axis=-1)] of a 2-D array. *)
Definition sum (v : vector) : F := fold_left fadd v fzero.
Definition sum_last (a : matrix) : vector := map sum a.

(** [jnp.mean] of a vector. *)
Definition mean (v : vector) : F := fdiv (sum v) (of_nat (length v)).

(** [jnp.argmax] of a vector: the first position of a largest element. *)
Fixpoint argmax_from (best : F) (besti i : nat) (v : vector) : nat :=
  match v with
  | [] => besti
  | x :: v' =>
      if fgtb x best then argmax_from x i (S i) v'
      else argmax_from best besti (S i) v'
  end.
Definition argmax (v : vector) : result nat :=
  match v with
  | [] => Raise ValueError
  | x :: v' => Ok (argmax_from x 0%nat 1%nat v')
  end.
(** [jnp.argmax(a, axis=-1)] of a 2-D array. *)
Definition argmax_last (a : matrix) : result (list nat) :=
  all_ok (map argmax a).

(** [u == v] for two integer vectors. *)
Definition equal (u v : list nat) : result (list Datatypes.bool) :=
  broadcast Nat.eqb u v.

(** A boolean array read as numbers, as [jnp.mean] does. *)
Definition of_bool (b : Datatypes.bool) : F := if b then fone else fzero.
Definition mean_bool (bs : list Datatypes.bool) : F := mean (map of_bool bs).

End Arrays.
End Jnp.

(** ** The model (notebook cell 5) *)

(** Haiku's layers: [hk.Linear(n)] reads its weights from the parameter
    mapping under the name of its position [k] in the network. *)
Class Haiku (F : Type) : Type := {
  Params : Type;
  hk_Linear : nat -> nat -> Params -> Jnp.matrix F -> result (Jnp.matrix F);
  relu : Jnp.matrix F -> Jnp.matrix F;
  log_softmax : Jnp.matrix F -> Jnp.matrix F
}.

Section Model.
Context {F : Type} `{SF : Scalar F} `{HK : Haiku F}.

(** [hk.Sequential(layers)(x)] *)
Definition hk_Sequential (layers : list (Jnp.matrix F -> result (Jnp.matrix F)))
  (x : Jnp.matrix F) : result (Jnp.matrix F) :=
  fold_left (fun acc layer => acc ≫= layer) layers (Ok x).

Definition forward_pass (params : Params) (x : Jnp.matrix F) : result (Jnp.matrix F) :=
  hk_Sequential
    [ hk_Linear 300 0 params;
      (fun h => Ok (relu h));
      hk_Linear 100 1 params;
      (fun h => Ok (relu h));
      hk_Linear 10 2 params;
      (fun h => Ok (log_softmax h)) ] x.

(** [network.apply], for
    [network = hk.without_apply_rng(hk.transform(forward_pass))]. *)
Definition network_apply (params : Params) (x : Jnp.matrix F) : result (Jnp.matrix F) :=
  forward_pass params x.

(** ** Loss and accuracy (notebook cell 6) *)

Definition cross_entropy_loss (params : Params) (x y : Jnp.matrix F) : result F :=
  y_pred ← network_apply params x;
  prod ← Jnp.multiply y_pred y;
  Ok (fneg (Jnp.mean (Jnp.sum_last prod))).

Definition accuracy (params : Params) (x y : Jnp.matrix F) : result F :=
  predictions ← network_apply params x;
  p ← Jnp.argmax_last predictions;
  t ← Jnp.argmax_last y;
  hits ← Jnp.equal p t;
  Ok (Jnp.mean_bool hits).

End Model.

(** ** The loss and the accuracy as the specification words them *)

Section SpecWords.
Context {F : Type} `{SF : Scalar F}.

(** The entry in row [i] and column [c] of a 2-D array. *)
Definition entry (a : Jnp.matrix F) (i c : nat) : F :=
  nth c (nth i a []) fzero.

(** [big_sum n f] is [f 0 + f 1 + ... + f (n-1)]. *)
Definition big_sum (n : nat) (f : nat -> F) : F :=
  fold_left (fun acc i => fadd acc (f i)) (seq 0 n) fzero.

(** The negative of the mean over the [rows] batch rows of the sum over
    the [classes] classes of log-probability times target. *)
Definition spec_cross_entropy (rows classes : nat) (logp y : Jnp.matrix F) : F :=
  fneg (fdiv (big_sum rows (fun i =>
                big_sum classes (fun c => fmul (entry logp i c) (entry y i c))))
             (of_nat rows)).

(** Row [i] is a hit when the arg-max classes of prediction and target
    agree. *)
Definition hit (pred y : Jnp.matrix F) (i : nat) : Datatypes.bool :=
  match Jnp.argmax (nth i pred []), Jnp.argmax (nth i y []) with
  | Ok p, Ok t => (p =? t)%nat
  | _, _ => false
  end.

(** The fraction of the [rows] batch rows that are hits. *)
Definition spec_accuracy (rows : nat) (pred y : Jnp.matrix F) : F :=
  fdiv (of_nat (length (filter (fun i => hit pred y i = true) (seq 0 rows))))
       (of_nat rows).

(** A 2-D array of [rows] rows and [cols] columns. *)
Definition has_shape (rows cols : nat) (a : Jnp.matrix F) : Prop :=
  length a = rows /\ Forall (fun r => length r = cols) a.

(** A one-hot row: a single [1] at the class index, [0] elsewhere. *)
Definition one_hot_row (r : list F) : Prop :=
  exists k, (k < length r)%nat /\ r = <[k := fone]> (replicate (length r) fzero).
Definition one_hot (y : Jnp.matrix F) : Prop := Forall one_hot_row y.

End SpecWords.

(** What the proofs about counting and about order use of the arithmetic;
    exact arithmetic has these properties, and so has floating-point
    arithmetic on finite values and on counts that it represents exactly. *)
Class CountLaws (F : Type) `{SF : Scalar F} : Prop := {
  of_nat_zero : of_nat 0 = fzero;
  of_nat_hit : forall n, fadd (of_nat n) fone = of_nat (S n);
  of_nat_miss : forall n, fadd (of_nat n) fzero = of_nat n
}.

Class OrderLaws (F : Type) `{SF : Scalar F} : Prop := {
  fgtb_irrefl : forall a, fgtb a a = false;
  fgtb_trans : forall a b c, fgtb a b = true -> fgtb b c = true -> fgtb a c = true;
  fgtb_one_zero : fgtb fone fzero = true
}.

(** Order and finiteness of scalars: [fle] is the comparison [<=] (false
    on a NaN), [ffinite] excludes the infinities and NaN, [fpos] holds of
    the finite values above 0. *)
Class Signs (F : Type) : Type := {
  fle : F -> F -> Prop;
  ffinite : F -> Prop;
  fpos : F -> Prop
}.

(** What the sign of the loss rests on.  The laws are those of IEEE
    arithmetic, overflow to an infinity included: a product with 0 is
    taken only of a finite value (minus infinity times 0 is a NaN), and a
    quotient only by a finite positive value. *)
Class SignLaws (F : Type) `{SF : Scalar F} `{SG : Signs F} : Prop := {
  fle_zero : fle fzero fzero;
  fadd_nonpos : forall a b, fle a fzero -> fle b fzero -> fle (fadd a b) fzero;
  fmul_zero_nonpos : forall a, fle a fzero -> ffinite a -> fle (fmul a fzero) fzero;
  fmul_one_nonpos : forall a, fle a fzero -> fle (fmul a fone) fzero;
  fdiv_nonpos : forall a d, fle a fzero -> fpos d -> fle (fdiv a d) fzero;
  fneg_nonpos : forall a, fle a fzero -> fle fzero (fneg a)
}.

(** Log-probabilities against their targets: every entry is at most 0,
    and is finite where the target entry is 0. *)
Definition safe_log_probs {F : Type} `{SF : Scalar F} `{SG : Signs F}
  (logp y : Jnp.matrix F) : Prop :=
  Forall2 (Forall2 (fun e t => fle e fzero /\ (t = fzero -> ffinite e))) logp y.

(** ** The notebook's global state *)

Section Notebook.
Context `{NR : NumpyRandom} {F : Type} `{SF : Scalar F} `{HK : Haiku F}.
Variable cfg : Config.
Variable env : Env (list F) (list F).

(** The module-level names that the cells read and assign: NumPy's own
    process-wide generator, the generator object [batches], and the
    network parameters. *)
Record World : Type := {
  np_global : RandomState;
  batches : gen_state;
  params : Params
}.

(** [batches = data_stream()] *)
Definition assign_data_stream (w : World) : World :=
  {| np_global := np_global w; batches := data_stream tt; params := params w |}.

(** [next(batches)] *)
Definition next_batches (fuel : nat) (w : World) : outcome batch * World :=
  match next cfg env fuel (batches w) with
  | Yielded (b, g) =>
      (Yielded b, {| np_global := np_global w; batches := g; params := params w |})
  | Raised e =>
      (Raised e, {| np_global := np_global w; batches := Finished; params := params w |})
  | OutOfFuel => (OutOfFuel, w)
  end.

(** [n] times [next(batches)], stopping at the first that does not yield. *)
Fixpoint next_batches_n (fuel n : nat) (w : World) : outcome (list batch) * World :=
  match n with
  | O => (Yielded [], w)
  | S n' =>
      match next_batches fuel w with
      | (Yielded b, w') =>
          let '(r, w'') := next_batches_n fuel n' w' in
          (bs ← r; Yielded (b :: bs), w'')
      | (Raised e, w') => (Raised e, w')
      | (OutOfFuel, w') => (OutOfFuel, w')
      end
  end.

(** [accuracy(p, x, y)] and [cross_entropy_loss(p, x, y)] as cells: the
    value and the world they leave. *)
Definition call_accuracy (p : Params) (x y : Jnp.matrix F) (w : World)
  : result F * World :=
  (accuracy p x y, w).
Definition call_cross_entropy_loss (p : Params) (x y : Jnp.matrix F) (w : World)
  : result F * World :=
  (cross_entropy_loss p x y, w).

End Notebook.

(** ** The optimiser (notebook cell 7) and the training driver (cell 8) *)

(** Optax's Adam and JAX's gradient are library code: [grad_loss] is the
    gradient part of [jax.value_and_grad(cross_entropy_loss)], [opt_init]
    and [opt_update] are the pair that [optax.adam(learning_rate)] returns. *)
Class Optax (F : Type) `{HK : Haiku F} : Type := {
  Grads : Type;
  Updates : Type;
  OptState : Type;
  grad_loss : Params -> Jnp.matrix F -> Jnp.matrix F -> Grads;
  opt_init : Params -> OptState;
  opt_update : Grads -> OptState -> Params -> Updates * OptState;
  apply_updates : Params -> Updates -> Params
}.

(** What cell 8 prints, line by line (the elapsed time of an epoch is left
    out of its line). *)
Inductive line (F : Type) : Type :=
| StartingTraining
| EpochLine (epoch : nat)
| TrainAccLine (percent : F)
| ValAccLine (percent : F)
| StartingTesting
| TestAccLine (percent : F).
Arguments StartingTraining {F}.
Arguments EpochLine {F} epoch.
Arguments TrainAccLine {F} percent.
Arguments ValAccLine {F} percent.
Arguments StartingTesting {F}.
Arguments TestAccLine {F} percent.

Section Driver.
Context `{NR : NumpyRandom} {F : Type} `{SF : Scalar F} `{HK : Haiku F}
        `{OP : !Optax F}.
Variable cfg : Config.
Variable env : Env (list F) (list F).

(** The names that cell 8 assigns, and its standard output. *)
Record Train : Type := {
  t_params : Params;
  t_opt_state : OptState;
  t_batches : gen_state;
  t_out : list (line F)
}.

(** The state in which cell 8 starts, for the parameters [ps] of
    [network.init]: [opt_state = opt_init(params)], [batches =
    data_stream()]. *)
Definition initial_train (ps : Params) : Train :=
  {| t_params := ps; t_opt_state := opt_init ps;
     t_batches := data_stream tt; t_out := [] |}.

(** [jax.value_and_grad(cross_entropy_loss)(params, x, y)] *)
Definition value_and_grad_loss (ps : Params) (x y : Jnp.matrix F)
  : result (F * Grads) :=
  loss ← cross_entropy_loss ps x y; Ok (loss, grad_loss ps x y).

(** The two assignments that follow: optimiser update, then
    [optax.apply_updates]. *)
Definition update_step (s : Params * OptState) (b : list (list F) * list (list F))
  : result (Params * OptState) :=
  '(_, grad) ← value_and_grad_loss (fst s) (fst b) (snd b);
  let '(updates, os) := opt_update grad (snd s) (fst s) in
  Ok (apply_updates (fst s) updates, os).

(** One turn of the inner loop: [next(batches)], then the update. *)
Definition train_step (fuel : nat) (st : Train) : outcome Train :=
  '(b, g) ← next cfg env fuel (t_batches st);
  '(ps, os) ← of_result (update_step (t_params st, t_opt_state st) b);
  Yielded {| t_params := ps; t_opt_state := os; t_batches := g; t_out := t_out st |}.

(** [for _ in range(n)] around it. *)
Fixpoint train_steps (fuel n : nat) (st : Train) : outcome Train :=
  match n with
  | O => Yielded st
  | S n' => st' ← train_step fuel st; train_steps fuel n' st'
  end.

(** [accuracy(params, images, labels) * 100] *)
Definition accuracy_percent (ps : Params) (x y : Jnp.matrix F) : result F :=
  a ← accuracy ps x y; Ok (fmul a (of_nat 100)).

(** The body of the loop over epochs. *)
Definition train_epoch (fuel : nat) (st : Train) (epoch : nat) : outcome Train :=
  st1 ← train_steps fuel (Z.to_nat (num_batches env)) st;
  train_acc ← of_result
    (accuracy_percent (t_params st1) (train_images env) (train_labels env));
  val_acc ← of_result
    (accuracy_percent (t_params st1) (val_images env) (val_labels env));
  Yielded {| t_params := t_params st1; t_opt_state := t_opt_state st1;
             t_batches := t_batches st1;
             t_out := t_out st1 ++ [EpochLine epoch; TrainAccLine train_acc;
                                    ValAccLine val_acc] |}.

(** [for epoch in ...] over a list of epoch numbers. *)
Fixpoint train_epochs (fuel : nat) (epochs : list nat) (st : Train) : outcome Train :=
  match epochs with
  | [] => Yielded st
  | e :: es => st' ← train_epoch fuel st e; train_epochs fuel es st'
  end.

Definition print (l : line F) (st : Train) : Train :=
  {| t_params := t_params st; t_opt_state := t_opt_state st;
     t_batches := t_batches st; t_out := t_out st ++ [l] |}.

(** Cell 8: training over [range(num_epochs)], then the test accuracy. *)
Definition cell8 (fuel : nat) (num_epochs : Z) (test_images test_labels : Jnp.matrix F)
  (st : Train) : outcome Train :=
  st1 ← train_epochs fuel (seq 0 (Z.to_nat num_epochs)) (print StartingTraining st);
  test_acc ← of_result (accuracy_percent (t_params st1) test_images test_labels);
  Yielded (print (TestAccLine test_acc) (print StartingTesting st1)).

(** The updates alone, folded over a list of batches. *)
Fixpoint fold_updates (bs : list (list (list F) * list (list F)))
  (s : Params * OptState) : result (Params * OptState) :=
  match bs with
  | [] => Ok s
  | b :: bs' => s' ← update_step s b; fold_updates bs' s'
  end.

(** The three lines of an epoch. *)
Definition epoch_lines (epoch : nat) (accs : F * F) : list (line F) :=
  [EpochLine epoch; TrainAccLine (fst accs); ValAccLine (snd accs)].

End Driver.

(** ** One-hot targets and arithmetic up to equality of values *)

(** The one-hot row of class [k] among [classes]. *)
Definition one_hot_encode {F : Type} `{SF : Scalar F} (classes k : nat) : list F :=
  <[k := fone]> (replicate classes fzero).

(** The identities of 0 and 1, up to an equality of values [feq] that the
    operations respect (for floats: equality of finite values, the two
    zeros being equal). *)
Class ArithLaws (F : Type) `{SF : Scalar F} : Type := {
  feq : F -> F -> Prop;
  feq_equiv : Equivalence feq;
  fadd_feq : forall a a' b b', feq a a' -> feq b b' -> feq (fadd a b) (fadd a' b');
  fdiv_feq : forall a a' n, feq a a' -> feq (fdiv a n) (fdiv a' n);
  fneg_feq : forall a a', feq a a' -> feq (fneg a) (fneg a');
  fmul_one : forall a, feq (fmul a fone) a;
  fmul_zero : forall a, feq (fmul a fzero) fzero;
  fadd_zero_l : forall a, feq (fadd fzero a) a;
  fadd_zero_r : forall a, feq (fadd a fzero) a
}.

(** ** Concrete instances, for running the definitions *)

(** A small linear congruential generator with an insertion shuffle.  It
    stands in for NumPy's generator wherever a run needs one. *)
Module Lcg.

Definition step (s : Z) : Z := (1103515245 * s + 12345) mod 2 ^ 31.

(** Element [k] is inserted at a drawn position of the shuffled
    [0 .. k-1]. *)
Fixpoint shuffle (n : nat) (s : Z) : list nat * Z :=
  match n with
  | O => ([], s)
  | S k =>
      let '(l, s1) := shuffle k s in
      let s2 := step s1 in
      let j := Z.to_nat ((s2 / 65536) mod Z.of_nat (S k)) in
      (take j l ++ k :: drop j l, s2)
  end.

Lemma shuffle_perm s n : fst (shuffle n s) ≡ₚ seq 0 n.
Proof.
  induction n as [|k IH]; [reflexivity|].
  cbn [shuffle]. destruct (shuffle k s) as [l s1]. cbn [fst] in *.
  rewrite seq_S. cbn [Nat.add].
  rewrite <- Permutation_middle, take_drop, IH.
  apply Permutation_cons_append.
Qed.

Definition random : NumpyRandom :=
  {| RandomState := Z;
     seed_state := fun seed => seed;
     permutation := fun s n => shuffle n s;
     permutation_perm := shuffle_perm |}.

End Lcg.

(** Exact rational arithmetic as the element type. *)
Module Rational.

Definition scalar : Scalar Q :=
  {| fzero := 0%Q;
     fone := 1%Q;
     fadd := Qplus;
     fmul := Qmult;
     fdiv := Qdiv;
     fneg := Qopp;
     fgtb := fun x y => negb (Qle_bool x y);
     of_nat := fun n => inject_Z (Z.of_nat n) |}.

Lemma count_laws : @CountLaws Q scalar.
Proof.
  split; cbn.
  - reflexivity.
  - intros n. unfold Qplus, inject_Z. cbn. f_equal. lia.
  - intros n. unfold Qplus, inject_Z. cbn. f_equal. lia.
Qed.

Lemma order_laws : @OrderLaws Q scalar.
Proof.
  split; cbn.
  - intros a. apply negb_false_iff, Qle_bool_iff. lra.
  - intros a b c Hab Hbc. apply negb_true_iff in Hab, Hbc. apply negb_true_iff.
    destruct (Qle_bool a c) eqn:Hac; [|reflexivity].
    apply Qle_bool_iff in Hac.
    assert (Hnab : ~ (a <= b)%Q) by (rewrite <- Qle_bool_iff; congruence).
    assert (Hnbc : ~ (b <= c)%Q) by (rewrite <- Qle_bool_iff; congruence).
    lra.
  - reflexivity.
Qed.

(** Dense layers over the rationals: the parameters list one weight
    matrix (one row per input) and one bias vector per layer. *)
Definition dense (w : list (list Q)) (b : list Q) (row : list Q) : list Q :=
  fold_left (fun acc xw => zip_with Qplus acc (map (Qmult (fst xw)) (snd xw)))
            (zip row w) b.

Definition linear (output_size k : nat) (ps : list (list (list Q) * list Q))
  (x : list (list Q)) : result (list (list Q)) :=
  match ps !! k with
  | Some (w, b) =>
      if (length b =? output_size)%nat then Ok (map (dense w b) x)
      else Raise ShapeError
  | None => Raise ValueError
  end.

Definition qmax (x y : Q) : Q := if Qle_bool x y then y else x.

(** In place of the log-softmax, whose exponential and logarithm leave the
    rationals: every entry minus the largest entry of its row. *)
Definition shifted (row : list Q) : list Q :=
  match row with
  | [] => []
  | x :: r => let m := fold_left qmax r x in map (fun v => (v - m)%Q) row
  end.

Definition haiku : Haiku Q :=
  {| Params := list (list (list Q) * list Q);
     hk_Linear := linear;
     relu := map (map (qmax 0));
     log_softmax := map shifted |}.

(** A three-layer parameter set for inputs of two features. *)
Definition unit_row (n k : nat) : list Q := <[k := 1%Q]> (replicate n 0%Q).
Definition small_params : list (list (list Q) * list Q) :=
  [ ([unit_row 300 0; unit_row 300 1], replicate 300 0%Q);
    (map (fun i => unit_row 100 (i mod 100)) (seq 0 300), replicate 100 0%Q);
    (map (fun i => unit_row 10 (i mod 10)) (seq 0 100), replicate 10 0%Q) ].

(** Five samples of two features, with one-hot labels over ten classes. *)
Definition images5 : list (list Q) :=
  [[1; 0]; [0; 1]; [1; 1]; [2; 1]; [0; 0]]%Q.
Definition labels5 : list (list Q) :=
  [unit_row 10 0; unit_row 10 1; unit_row 10 1; unit_row 10 1; unit_row 10 3].

Definition cfg5 : Config :=
  {| batch_size := 2; validation_split := Float64.lit_0_2 |}.

(** The globals after cell 4 on these five samples. *)
Definition env5 : Env (list Q) (list Q) :=
  {| train_samples := 4;
     val_samples := 1;
     train_images := take 4 images5;
     val_images := drop 4 images5;
     train_labels := take 4 labels5;
     val_labels := drop 4 labels5;
     num_batches := 2 |}.

(** The training rows of the five samples, and what the network above
    returns on them. *)
Definition x4 : list (list Q) := take 4 images5.
Definition y4 : list (list Q) := take 4 labels5.
Definition logp4 : list (list Q) :=
  [ [0; -1; -1; -1; -1; -1; -1; -1; -1; -1];
    [-1; 0; -1; -1; -1; -1; -1; -1; -1; -1];
    [0; 0; -1; -1; -1; -1; -1; -1; -1; -1];
    [0; -1; -2; -2; -2; -2; -2; -2; -2; -2] ]%Q.

(** A world in which an earlier generator is suspended in its first pass
    and the parameters are not initialised yet. *)
Definition world5 : @World Lcg.random Q haiku :=
  @Build_World Lcg.random Q haiku
    2024 (@Suspended Lcg.random 7 [0; 1; 2; 3]%nat 0) [].

(** Equality of values on the rationals. *)
Definition arith_laws : @ArithLaws Q scalar.
Proof.
  refine {| feq := Qeq; feq_equiv := Q_Setoid |}; cbn.
  - intros a a' b b' Ha Hb. rewrite Ha, Hb. reflexivity.
  - intros a a' n Ha. rewrite Ha. reflexivity.
  - intros a a' Ha. rewrite Ha. reflexivity.
  - intros a. ring.
  - intros a. ring.
  - intros a. ring.
  - intros a. ring.
Defined.

(** In place of Adam, an optimiser that counts its steps and leaves the
    parameters alone. *)
Definition optax : @Optax Q haiku :=
  {| Grads := unit;
     Updates := unit;
     OptState := nat;
     grad_loss := fun _ _ _ => tt;
     opt_init := fun _ => 0%nat;
     opt_update := fun _ s _ => (tt, S s);
     apply_updates := fun p _ => p |}.

(** The classes of the four training rows. *)
Definition classes4 : list nat := [0; 1; 1; 1]%nat.

(** A fraction of 1: every sample goes to validation. *)
Definition cfg_all_val : Config :=
  {| batch_size := 2; validation_split := S754_finite false 4503599627370496 (-52) |}.

(** The globals after cell 4 with that fraction. *)
Definition env_all_val : Env (list Q) (list Q) :=
  {| train_samples := 0;
     val_samples := 5;
     train_images := [];
     val_images := images5;
     train_labels := [];
     val_labels := labels5;
     num_batches := 0 |}.

(** The globals after cell 4 when only three of the five labels are
    there. *)
Definition env_short : Env (list Q) (list Q) :=
  {| train_samples := 4;
     val_samples := 1;
     train_images := take 4 images5;
     val_images := drop 4 images5;
     train_labels := take 3 labels5;
     val_labels := [];
     num_batches := 2 |}.

(** The two batches of the first pass over the five samples, and the
    state in which one epoch of cell 8 leaves the driver there. *)
Definition first_pass5 : list (list (list Q) * list (list Q)) :=
  [ ([[0; 1]; [2; 1]]%Q, [unit_row 10 1; unit_row 10 1]);
    ([[1; 1]; [1; 0]]%Q, [unit_row 10 1; unit_row 10 0]) ].
Definition trained5 : @Train Lcg.random Q haiku optax :=
  @Build_Train Lcg.random Q haiku optax
    small_params 2%nat (@Suspended Lcg.random 1449466924 [1; 3; 2; 0]%nat 1)
    [ StartingTraining; EpochLine 0; TrainAccLine (200 # 4)%Q; ValAccLine 0%Q;
      StartingTesting; TestAccLine 0%Q ].

End Rational.

(** ** The program's arithmetic: IEEE binary32 *)

(** JAX computes in single precision unless told otherwise, so the
    scalars of the notebook are binary32 floats.  The operations are those
    of [SpecFloat] at precision 24; the sums of [jnp.sum] and of the dense
    layers are taken from left to right. *)
Module Float32.

Definition prec : Z := 24.
Definition emax : Z := 128.
Definition float : Type := spec_float.

Definition of_Z (n : Z) : float := binary_normalize prec emax n 0 false.
Definition zero : float := S754_zero false.
Definition one : float := Eval cbv in of_Z 1.
Definition add : float -> float -> float := SFadd prec emax.
Definition sub : float -> float -> float := SFsub prec emax.
Definition mul : float -> float -> float := SFmul prec emax.
Definition div : float -> float -> float := SFdiv prec emax.

Definition scalar : Scalar float :=
  {| fzero := zero;
     fone := one;
     fadd := add;
     fmul := mul;
     fdiv := div;
     fneg := SFopp;
     fgtb := fun x y => SFltb y x;
     of_nat := fun n => of_Z (Z.of_nat n) |}.

Definition finite (x : float) : Prop :=
  match x with
  | S754_zero _ | S754_finite _ _ _ => True
  | _ => False
  end.
Definition positive (x : float) : Prop :=
  match x with
  | S754_finite false _ _ => True
  | _ => False
  end.

Definition signs : Signs float :=
  {| fle := fun x y => SFleb x y = true;
     ffinite := finite;
     fpos := positive |}.

(** A sign bit that a zero, a finite value or an infinity carries. *)
Definition signed (s : Datatypes.bool) (x : float) : Prop :=
  match x with
  | S754_zero s' | S754_finite s' _ _ | S754_infinity s' => s' = s
  | S754_nan => False
  end.

(** [jnp.exp] and [jnp.log] in binary32, where the result does not depend
    on how the library rounds: at zeros, infinities and NaN, at 1, and
    where the exponential underflows to 0 (below -104, half the least
    subnormal being above [e^-104]) or overflows (above 89).  In between,
    the first-order term stands in for the rounded value; no statement
    below evaluates the functions there. *)
Definition exp (x : float) : float :=
  match x with
  | S754_nan => S754_nan
  | S754_zero _ => one
  | S754_infinity s => if s then zero else x
  | S754_finite _ _ _ =>
      if SFleb x (of_Z (-104)) then zero
      else if SFleb (of_Z 89) x then S754_infinity false
      else add one x
  end.
Definition log (x : float) : float :=
  match x with
  | S754_nan => S754_nan
  | S754_zero _ => S754_infinity true
  | S754_infinity s => if s then S754_nan else x
  | S754_finite s _ _ =>
      if s then S754_nan
      else if SFeqb x one then zero
      else sub x one
  end.

(** [jnp.maximum] *)
Definition maximum (x y : float) : float :=
  match SFcompare x y with
  | Some Lt => y
  | Some _ => x
  | None => S754_nan
  end.

(** [hk.Linear]: [jnp.dot(x, w) + b], the weights having one row per
    input. *)
Definition dense (w : list (list float)) (b : list float) (row : list float)
  : list float :=
  zip_with add
    (fold_left (fun acc xw => zip_with add acc (map (mul (fst xw)) (snd xw)))
               (zip row w) (replicate (length b) zero))
    b.

Definition linear (output_size k : nat) (ps : list (list (list float) * list float))
  (x : list (list float)) : result (list (list float)) :=
  match ps !! k with
  | Some (w, b) =>
      if (length b =? output_size)%nat then Ok (map (dense w b) x)
      else Raise ShapeError
  | None => Raise ValueError
  end.

(** [jax.nn.log_softmax] along the last axis: the entries minus their
    maximum, minus the logarithm of the sum of the exponentials of
    these. *)
Definition log_softmax_row (row : list float) : list float :=
  let x_max := fold_left maximum row (S754_infinity true) in
  let shifted := map (fun v => sub v x_max) row in
  let lse := log (fold_left add (map exp shifted) zero) in
  map (fun v => sub v lse) shifted.

Definition haiku : Haiku float :=
  {| Params := list (list (list float) * list float);
     hk_Linear := linear;
     relu := map (map (fun v => maximum v zero));
     log_softmax := map log_softmax_row |}.

(** Parameters with weights 0; the biases of the output layer are the
    logits of every input. *)
Definition bias_params (logits : list float) : list (list (list float) * list float) :=
  [ (replicate 2 (replicate 300 zero), replicate 300 zero);
    (replicate 300 (replicate 100 zero), replicate 100 zero);
    (replicate 100 (replicate 10 zero), logits) ].

(** [1.5 * 2^127], and -200. *)
Definition huge : float := S754_finite false 12582912 104.
Definition minus_200 : float := S754_finite true 13107200 (-16).

(** Logits that are further apart than the largest float, and logits that
    single out class 0 within the range. *)
Definition wide_logits : list float := huge :: SFopp huge :: replicate 8 zero.
Definition sharp_logits : list float := zero :: replicate 9 minus_200.

(** One input row of two features, and the one-hot targets of class 0 and
    of class 1. *)
Definition x1 : list (list float) := [[zero; zero]].
Definition class0 : list (list float) := [<[0%nat := one]> (replicate 10 zero)].
Definition class1 : list (list float) := [<[1%nat := one]> (replicate 10 zero)].

(** What the network returns on [x1] with these logits. *)
Definition wide_logp : list (list float) :=
  [zero :: S754_infinity true :: replicate 8 (SFopp huge)].
Definition sharp_logp : list (list float) :=
  [zero :: replicate 9 minus_200].

End Float32.

(** * Properties *)

(** ** Python helpers *)

Lemma bind_Ok_inv {A B} (m : result A) (f : A -> result B) (b : B) :
  m ≫= f = Ok b -> exists a, m = Ok a /\ f a = Ok b.
Proof. destruct m as [a|e]; cbn; [eauto|discriminate]. Qed.

Lemma all_ok_length {A} (ms : list (result A)) (l : list A) :
  all_ok ms = Ok l -> length l = length ms.
Proof.
  revert l. induction ms as [|m ms IH]; intros l Hl; cbn in Hl.
  - injection Hl as <-. reflexivity.
  - apply bind_Ok_inv in Hl as (a & -> & Hl).
    apply bind_Ok_inv in Hl as (l' & Hl' & Hl).
    injection Hl as <-. cbn. f_equal. exact (IH _ Hl').
Qed.

Lemma take_rows_length {A} (l : list A) (idx : list nat) (r : list A) :
  take_rows l idx = Ok r -> length r = length idx.
Proof.
  unfold take_rows. intros Hr. apply all_ok_length in Hr.
  rewrite length_map in Hr. exact Hr.
Qed.

Lemma take_rows_in_range {A} (l : list A) (idx : list nat) :
  Forall (fun i => (i < length l)%nat) idx -> exists r, take_rows l idx = Ok r.
Proof.
  unfold take_rows. induction 1 as [|i idx Hi _ [r IH]]; cbn [map all_ok].
  - eexists. reflexivity.
  - rewrite IH. unfold item.
    apply lookup_lt_is_Some_2 in Hi as [a ->]. cbn. eexists. reflexivity.
Qed.

Lemma slice_bound_nonneg (len : nat) (k : Z) :
  0 <= k -> slice_bound len k = Nat.min (Z.to_nat k) len.
Proof.
  intros Hk. unfold slice_bound.
  destruct (Z.ltb_spec k 0); lia.
Qed.

(** Between non-negative bounds a slice is a [take] of a [drop]. *)
Lemma slice_nonneg {A} (l : list A) (lo hi : Z) :
  0 <= lo <= hi ->
  slice l lo hi = take (Z.to_nat hi - Z.to_nat lo) (drop (Z.to_nat lo) l).
Proof.
  intros Hb. unfold slice. rewrite !slice_bound_nonneg by lia.
  destruct (Nat.le_gt_cases (length l) (Z.to_nat lo)) as [Hge|Hlt].
  - rewrite Nat.min_r by lia. rewrite !drop_ge by lia. by rewrite !take_nil.
  - rewrite (Nat.min_l (Z.to_nat lo)) by lia.
    destruct (Nat.le_gt_cases (length l) (Z.to_nat hi)) as [Hge'|Hlt'].
    + rewrite Nat.min_r by lia.
      rewrite !take_ge; [reflexivity| |]; rewrite length_drop; lia.
    + rewrite Nat.min_l by lia. reflexivity.
Qed.

Lemma slice_to_nonneg {A} (l : list A) (hi : Z) :
  0 <= hi -> slice_to l hi = take (Z.to_nat hi) l.
Proof.
  intros Hh. unfold slice_to. rewrite slice_bound_nonneg by lia.
  destruct (Nat.le_gt_cases (length l) (Z.to_nat hi)).
  - rewrite Nat.min_r by lia. rewrite !take_ge by lia. reflexivity.
  - rewrite Nat.min_l by lia. reflexivity.
Qed.

Lemma slice_from_nonneg {A} (l : list A) (lo : Z) :
  0 <= lo -> slice_from l lo = drop (Z.to_nat lo) l.
Proof.
  intros Hl. unfold slice_from. rewrite slice_bound_nonneg by lia.
  destruct (Nat.le_gt_cases (length l) (Z.to_nat lo)).
  - rewrite Nat.min_r by lia. rewrite !drop_ge by lia. reflexivity.
  - rewrite Nat.min_l by lia. reflexivity.
Qed.

(** ** Floats *)

Module Float64Facts.
Import Float64.

Lemma trunc_mag_nonneg m e : 0 <= trunc_mag m e.
Proof.
  destruct e as [|p|p]; cbn [trunc_mag]; [lia| |].
  - apply Z.mul_nonneg_nonneg; [lia|]. apply Z.pow_nonneg. lia.
  - apply Z.div_pos; [lia|]. apply Z.pow_pos_nonneg; lia.
Qed.

(** On a non-negative float, [int] is the floor of the exact value. *)
Lemma trunc_mag_floor m e :
  Qfloor (inject_Z (Z.pos m) * Qpower 2 e) = trunc_mag m e.
Proof.
  destruct e as [|p|p]; cbn [trunc_mag].
  - rewrite <- (Qfloor_Z (Z.pos m)) at 2. apply Qfloor_comp. cbn [Qpower]. ring.
  - rewrite <- (Qfloor_Z (Z.pos m * 2 ^ Z.pos p)). apply Qfloor_comp.
    rewrite inject_Z_mult. rewrite Zpower_Qpower by lia. reflexivity.
  - rewrite Zdiv_Qdiv. apply Qfloor_comp.
    change (Z.neg p) with (- Z.pos p)%Z. rewrite Qpower_opp.
    rewrite Zpower_Qpower by lia. reflexivity.
Qed.

Lemma to_int_floor x v :
  nonneg x -> to_int x = Ok v -> floor x = Some v.
Proof.
  destruct x as [s|s| |s m e]; cbn; intros Hx Hv; try discriminate.
  - injection Hv as <-. reflexivity.
  - subst s. injection Hv as <-. unfold floor. cbn. f_equal. apply trunc_mag_floor.
Qed.

Lemma to_int_nonneg x v : nonneg x -> to_int x = Ok v -> 0 <= v.
Proof.
  destruct x as [s|s| |s m e]; cbn; intros Hx Hv; try discriminate.
  - injection Hv as <-. lia.
  - subst s. injection Hv as <-. apply trunc_mag_nonneg.
Qed.

(** Rounding never produces a negative mantissa. *)
Lemma shr_1_nonneg mrs : 0 <= shr_m mrs -> 0 <= shr_m (shr_1 mrs).
Proof.
  destruct mrs as [m r s]. cbn [shr_m]. intros Hm.
  destruct m as [|[p|p|]|p]; cbn; lia.
Qed.

Lemma iter_shr_1_nonneg p mrs :
  0 <= shr_m mrs -> 0 <= shr_m (SpecFloat.iter_pos shr_1 p mrs).
Proof.
  revert mrs. induction p as [p IH|p IH|]; intros mrs Hm; cbn [iter_pos].
  - apply IH, IH, shr_1_nonneg, Hm.
  - apply IH, IH, Hm.
  - apply shr_1_nonneg, Hm.
Qed.

Lemma shr_nonneg mrs e n : 0 <= shr_m mrs -> 0 <= shr_m (fst (shr mrs e n)).
Proof.
  intros Hm. destruct n as [|p|p]; cbn [shr fst]; [exact Hm| |exact Hm].
  apply iter_shr_1_nonneg, Hm.
Qed.

Lemma shr_fexp_nonneg m e l :
  0 <= m -> 0 <= shr_m (fst (shr_fexp prec emax m e l)).
Proof.
  intros Hm. unfold shr_fexp. apply shr_nonneg.
  destruct l as [|[| |]]; cbn; exact Hm.
Qed.

Lemma round_nearest_even_nonneg m l : 0 <= m -> 0 <= round_nearest_even m l.
Proof.
  intros Hm. destruct l as [|[| |]]; cbn [round_nearest_even]; try lia.
  destruct (Z.even m); lia.
Qed.

Lemma binary_round_aux_nonneg m e l :
  0 <= m -> nonneg (binary_round_aux prec emax false m e l).
Proof.
  intros Hm. unfold binary_round_aux.
  pose proof (shr_fexp_nonneg m e l Hm) as H1.
  destruct (shr_fexp prec emax m e l) as [mrs' e']. cbn [fst] in H1.
  pose proof (shr_fexp_nonneg
                (round_nearest_even (shr_m mrs') (loc_of_shr_record mrs')) e'
                loc_Exact (round_nearest_even_nonneg _ _ H1)) as H2.
  destruct (shr_fexp prec emax _ e' loc_Exact) as [mrs'' e'']. cbn [fst] in H2.
  destruct (shr_m mrs'') as [|p|p]; cbn; [exact I| |lia].
  destruct (e'' <=? emax - prec); reflexivity.
Qed.

Lemma of_int_nonneg n x : 0 <= n -> of_int n = Ok x -> nonneg x.
Proof.
  unfold of_int. intros Hn Hx.
  assert (Hb : nonneg (binary_normalize prec emax n 0 false)).
  { destruct n as [|p|p]; cbn [binary_normalize]; [exact I| |lia].
    unfold binary_round. destruct (shl_align _ _ _) as [mz ez].
    apply binary_round_aux_nonneg. lia. }
  destruct (binary_normalize prec emax n 0 false); inversion Hx; subst; exact Hb.
Qed.

Lemma mul_nonneg x y : nonneg x -> nonneg y -> mul x y = S754_nan \/ nonneg (mul x y).
Proof.
  destruct x as [sx|sx| |sx mx ex], y as [sy|sy| |sy my ey]; cbn;
    intros Hx Hy; subst; auto.
  right. apply binary_round_aux_nonneg. lia.
Qed.

Lemma iter_pos_nat {A} (f : A -> A) p x :
  SpecFloat.iter_pos f p x = Nat.iter (Pos.to_nat p) f x.
Proof.
  revert x. induction p as [p IH|p IH|]; intros x; cbn [SpecFloat.iter_pos].
  - rewrite !IH. rewrite Pos2Nat.inj_xI.
    replace (S (2 * Pos.to_nat p))%nat with (Pos.to_nat p + (Pos.to_nat p + 1))%nat by lia.
    rewrite !Nat.iter_add. cbn. reflexivity.
  - rewrite !IH. rewrite Pos2Nat.inj_xO.
    replace (2 * Pos.to_nat p)%nat with (Pos.to_nat p + Pos.to_nat p)%nat by lia.
    rewrite Nat.iter_add. reflexivity.
  - reflexivity.
Qed.

Lemma shr_1_spec mrs :
  0 <= shr_m mrs ->
  shr_m (shr_1 mrs) = shr_m mrs / 2 /\
  (exact mrs -> shr_m mrs mod 2 = 0 -> exact (shr_1 mrs)).
Proof.
  destruct mrs as [m r s]. unfold exact. cbn [shr_m shr_r shr_s]. intros Hm.
  destruct m as [|[p|p|]|p]; cbn [shr_1 shr_m shr_r shr_s]; try lia.
  - split; [reflexivity|]. intros [-> ->] _. auto.
  - split; [rewrite Pos2Z.inj_xI; apply Z.div_unique with 1; lia|].
    intros _ Hodd. rewrite Pos2Z.inj_xI in Hodd.
    rewrite Z.add_comm, Z.mul_comm, Z.mod_add in Hodd by lia. discriminate.
  - split; [rewrite Pos2Z.inj_xO; apply Z.div_unique with 0; lia|].
    intros [-> ->] _. auto.
  - split; [reflexivity|]. intros _ Hodd. discriminate.
Qed.

Lemma iter_shr_1_spec (j : nat) mrs :
  0 <= shr_m mrs ->
  shr_m (Nat.iter j shr_1 mrs) = shr_m mrs / 2 ^ Z.of_nat j /\
  (exact mrs -> shr_m mrs mod 2 ^ Z.of_nat j = 0 -> exact (Nat.iter j shr_1 mrs)).
Proof.
  intros Hm. induction j as [|j [IHm IHe]].
  - cbn. rewrite Z.div_1_r. auto.
  - rewrite Nat.iter_succ.
    assert (Hj : 0 <= shr_m (Nat.iter j shr_1 mrs)).
    { rewrite IHm. apply Z.div_pos; [lia|]. apply Z.pow_pos_nonneg; lia. }
    destruct (shr_1_spec _ Hj) as [Hm1 He1].
    rewrite Nat2Z.inj_succ, Z.pow_succ_r by lia.
    assert (Hp : 0 < 2 ^ Z.of_nat j) by (apply Z.pow_pos_nonneg; lia).
    split.
    + rewrite Hm1, IHm, Z.div_div by lia. f_equal. lia.
    + intros Hex Hmod.
      assert (H1 : 0 <= shr_m mrs mod 2 ^ Z.of_nat j < 2 ^ Z.of_nat j)
        by (apply Z.mod_pos_bound; lia).
      assert (H2 : 0 <= (shr_m mrs / 2 ^ Z.of_nat j) mod 2 < 2)
        by (apply Z.mod_pos_bound; lia).
      replace (2 * 2 ^ Z.of_nat j) with (2 ^ Z.of_nat j * 2) in Hmod by lia.
      rewrite Z.rem_mul_r in Hmod by lia.
      apply He1.
      * apply IHe; [exact Hex|]. nia.
      * rewrite IHm. nia.
Qed.

Lemma exact_loc mrs : exact mrs -> loc_of_shr_record mrs = loc_Exact.
Proof. destruct mrs as [m r s]. intros [Hr Hs]. cbn in *. subst. reflexivity. Qed.

Lemma round_nearest_even_bounds m l :
  m <= round_nearest_even m l <= m + 1.
Proof.
  destruct l as [|[| |]]; cbn [round_nearest_even]; try lia.
  destruct (Z.even m); lia.
Qed.

Lemma digits2_pos_lower p : 2 ^ (Z.pos (digits2_pos p) - 1) <= Z.pos p.
Proof.
  induction p as [p IH|p IH|]; cbn [digits2_pos].
  - rewrite Pos2Z.inj_succ. replace (Z.succ (Z.pos (digits2_pos p)) - 1)
      with (Z.succ (Z.pos (digits2_pos p) - 1)) by lia.
    rewrite Z.pow_succ_r by lia. lia.
  - rewrite Pos2Z.inj_succ. replace (Z.succ (Z.pos (digits2_pos p)) - 1)
      with (Z.succ (Z.pos (digits2_pos p) - 1)) by lia.
    rewrite Z.pow_succ_r by lia. lia.
  - cbn. lia.
Qed.

Lemma Zdigits2_bound m e N :
  0 <= m -> e <= 0 -> 0 <= N < 2 ^ prec -> m <= N * 2 ^ (- e) ->
  Zdigits2 m + e <= prec.
Proof.
  intros Hm He HN Hb. destruct m as [|p|p]; cbn [Zdigits2]; [unfold prec; lia| |lia].
  pose proof (digits2_pos_lower p) as Hd.
  assert (Hpow : 0 < 2 ^ (- e)) by (apply Z.pow_pos_nonneg; lia).
  assert (Hlt : 2 ^ (Z.pos (digits2_pos p) - 1) < 2 ^ (prec - e)).
  { replace (prec - e) with (prec + - e) by lia.
    rewrite Z.pow_add_r by (unfold prec; lia). nia. }
  apply Z.pow_lt_mono_r_iff in Hlt; [lia|lia|unfold prec; lia].
Qed.

Lemma shr_fexp_bound m e N :
  0 <= m -> e <= 0 -> 0 <= N < 2 ^ prec -> m <= N * 2 ^ (- e) ->
  let mrs := fst (shr_fexp prec emax m e loc_Exact) in
  let e' := snd (shr_fexp prec emax m e loc_Exact) in
  0 <= shr_m mrs /\ e' <= 0 /\
  round_nearest_even (shr_m mrs) (loc_of_shr_record mrs) <= N * 2 ^ (- e').
Proof.
  intros Hm He HN Hb. cbn zeta. unfold shr_fexp.
  cbn [shr_record_of_loc].
  pose proof (Zdigits2_bound m e N Hm He HN Hb) as Hd.
  set (k := fexp prec emax (Zdigits2 m + e) - e).
  assert (Hk : e + k <= 0).
  { unfold k, fexp, SpecFloat.emin, prec, emax in *. lia. }
  clearbody k. destruct k as [|k|k]; cbn [shr fst snd shr_m loc_of_shr_record round_nearest_even];
    [auto | | auto].
  rewrite iter_pos_nat.
  destruct (iter_shr_1_spec (Pos.to_nat k) {| shr_m := m; shr_r := false; shr_s := false |} Hm)
    as [Hv Hex].
  cbn [shr_m] in Hv, Hex. rewrite positive_nat_Z in Hv, Hex.
  set (mrs := Nat.iter (Pos.to_nat k) shr_1 _) in *. clearbody mrs.
  assert (Hp : 0 < 2 ^ Z.pos k) by (apply Z.pow_pos_nonneg; lia).
  assert (Hsplit : 2 ^ (- e) = 2 ^ (- (e + Z.pos k)) * 2 ^ Z.pos k).
  { rewrite <- Z.pow_add_r by lia. f_equal. lia. }
  set (J := N * 2 ^ (- (e + Z.pos k))).
  assert (HbJ : m <= J * 2 ^ Z.pos k) by (unfold J; rewrite Hsplit in Hb; lia).
  pose proof (Z.div_mod m (2 ^ Z.pos k) ltac:(lia)) as Hdm.
  pose proof (Z.mod_pos_bound m (2 ^ Z.pos k) Hp) as Hmb.
  split; [rewrite Hv; apply Z.div_pos; lia|]. split; [exact Hk|].
  destruct (Z.eq_dec (m mod 2 ^ Z.pos k) 0) as [Hz|Hnz].
  - rewrite (exact_loc mrs) by (apply Hex; [split; reflexivity|exact Hz]).
    cbn [round_nearest_even]. rewrite Hv. nia.
  - pose proof (round_nearest_even_bounds (shr_m mrs) (loc_of_shr_record mrs)) as Hr.
    rewrite Hv in *. nia.
Qed.

Lemma binary_round_aux_bound m e N :
  0 <= m -> e <= 0 -> 0 <= N < 2 ^ prec -> m <= N * 2 ^ (- e) ->
  bounded_by N (binary_round_aux prec emax false m e loc_Exact).
Proof.
  intros Hm He HN Hb. unfold binary_round_aux.
  destruct (shr_fexp_bound m e N Hm He HN Hb) as (H1 & He1 & Hb1).
  destruct (shr_fexp prec emax m e loc_Exact) as [mrs' e']. cbn [fst snd] in *.
  set (m2 := round_nearest_even (shr_m mrs') (loc_of_shr_record mrs')) in *.
  assert (Hm2 : 0 <= m2).
  { pose proof (round_nearest_even_bounds (shr_m mrs') (loc_of_shr_record mrs')). lia. }
  destruct (shr_fexp_bound m2 e' N Hm2 He1 HN Hb1) as (H2 & He2 & Hb2).
  destruct (shr_fexp prec emax m2 e' loc_Exact) as [mrs'' e'']. cbn [fst snd] in *.
  pose proof (round_nearest_even_bounds (shr_m mrs'') (loc_of_shr_record mrs'')) as Hr.
  destruct (shr_m mrs'') as [|p|p]; cbn [bounded_by]; [exact I| |lia].
  destruct (Z.leb_spec e'' (emax - prec)) as [_|Hgt]; [|unfold emax, prec in Hgt; lia].
  cbn [bounded_by]. repeat split; [exact He2|lia].
Qed.

Lemma pos_iter_xO p d : Z.pos (Pos.iter xO p d) = Z.pos p * 2 ^ Z.pos d.
Proof.
  induction d as [|d IH] using Pos.peano_ind.
  - cbn. lia.
  - rewrite Pos.iter_succ, Pos2Z.inj_xO, IH, Pos2Z.inj_succ, Z.pow_succ_r by lia. lia.
Qed.

Lemma binary_normalize_bound n :
  0 <= n < 2 ^ prec -> bounded_by n (binary_normalize prec emax n 0 false).
Proof.
  intros Hn. destruct n as [|p|p]; cbn [binary_normalize]; [exact I| |lia].
  unfold binary_round, shl_align.
  set (ex' := fexp prec emax (Z.pos (digits2_pos p) + 0)).
  destruct (ex' - 0) as [|d|d] eqn:Hd.
  - apply binary_round_aux_bound; lia.
  - apply binary_round_aux_bound; lia.
  - assert (ex' = Z.neg d) by lia.
    apply binary_round_aux_bound; try lia.
    rewrite pos_iter_xO. replace (- ex') with (Z.pos d) by lia. lia.
Qed.

Lemma trunc_bounded N s m e :
  bounded_by N (S754_finite s m e) ->
  trunc_mag m e <= N.
Proof.
  unfold trunc_mag. cbn. intros (_ & He & Hb). destruct e as [|p|p]; [cbn in Hb; lia|lia|].
  replace (- Z.neg p) with (Z.pos p) in Hb by lia.
  assert (0 < 2 ^ Z.pos p) by (apply Z.pow_pos_nonneg; lia).
  apply Z.div_le_upper_bound; lia.
Qed.

Lemma mag_pos m e : (0 < inject_Z (Z.pos m) * Qpower 2 e)%Q.
Proof.
  apply Qmult_lt_0_compat.
  - change 0%Q with (inject_Z 0). rewrite <- Zlt_Qlt. lia.
  - apply Qpower_0_lt. reflexivity.
Qed.

Lemma mag_le_one m e :
  (inject_Z (Z.pos m) * Qpower 2 e <= 1)%Q -> e <= 0 /\ Z.pos m <= 1 * 2 ^ (- e).
Proof.
  intros Hq.
  assert (H2 : forall p, 0 < 2 ^ Z.pos p) by (intros; apply Z.pow_pos_nonneg; lia).
  destruct e as [|p|p].
  - cbn [Qpower] in Hq. rewrite Qmult_1_r in Hq.
    change 1%Q with (inject_Z 1) in Hq. rewrite <- Zle_Qle in Hq. cbn. lia.
  - exfalso. change 2%Q with (inject_Z 2) in Hq.
    rewrite <- Zpower_Qpower, <- inject_Z_mult in Hq by lia.
    change 1%Q with (inject_Z 1) in Hq. rewrite <- Zle_Qle in Hq.
    assert (2 ^ 1 <= 2 ^ Z.pos p) by (apply Z.pow_le_mono_r; lia).
    nia.
  - split; [lia|]. change (Z.neg p) with (- Z.pos p) in Hq.
    rewrite Qpower_opp in Hq. change 2%Q with (inject_Z 2) in Hq.
    rewrite <- Zpower_Qpower in Hq by lia.
    replace (- Z.neg p) with (Z.pos p) by lia.
    specialize (H2 p).
    assert (Hpos : (0 < inject_Z (2 ^ Z.pos p))%Q).
    { change 0%Q with (inject_Z 0). rewrite <- Zlt_Qlt. exact H2. }
    destruct (Z.le_gt_cases (Z.pos m) (2 ^ Z.pos p)) as [Hle|Hgt]; [lia|exfalso].
    assert (Hlt : (1 < inject_Z (Z.pos m) / inject_Z (2 ^ Z.pos p))%Q).
    { apply Qlt_shift_div_l; [exact Hpos|]. rewrite Qmult_1_l, <- Zlt_Qlt. lia. }
    unfold Qdiv in Hlt. lra.
Qed.

Lemma is_fraction_bounded f : is_fraction f -> bounded_by 1 f.
Proof.
  intros (q & Hq & Hlo & Hhi).
  destruct f as [s|s| |s m e]; cbn in Hq; try discriminate; [exact I|].
  injection Hq as <-. pose proof (mag_pos m e) as Hpos.
  destruct s; [lra|]. cbn. split; [reflexivity|]. apply mag_le_one, Hhi.
Qed.

Lemma is_fraction_nonneg f : is_fraction f -> nonneg f.
Proof.
  intros Hf. apply is_fraction_bounded in Hf.
  destruct f as [s|s| |s m e]; cbn in *; tauto.
Qed.

Lemma of_int_bounded n :
  0 <= n < 2 ^ prec -> exists nf, of_int n = Ok nf /\ bounded_by n nf.
Proof.
  intros Hn. pose proof (binary_normalize_bound n Hn) as Hb. unfold of_int.
  destruct (binary_normalize prec emax n 0 false) as [s|s| |s m e];
    cbn in Hb; try contradiction; eauto.
Qed.

(** The product of a float of value at most [n] and a fraction has value at
    most [n]: rounding cannot pass the representable [n]. *)
Lemma mul_bounded n nf f :
  0 <= n < 2 ^ prec -> bounded_by n nf -> bounded_by 1 f -> bounded_by n (mul nf f).
Proof.
  intros Hn Hbn Hf.
  destruct nf as [sx|sx| |sx mx ex], f as [sy|sy| |sy my ey]; cbn in Hbn, Hf;
    try contradiction; try exact I.
  destruct Hbn as (-> & Hex & Hmx), Hf as (-> & Hey & Hmy).
  unfold mul. cbn [SFmul xorb].
  apply binary_round_aux_bound; [lia|lia|exact Hn|].
  replace (- (ex + ey)) with (- ex + - ey) by lia.
  rewrite Z.pow_add_r, Pos2Z.inj_mul by lia.
  assert (0 < 2 ^ (- ex)) by (apply Z.pow_pos_nonneg; lia).
  assert (0 < 2 ^ (- ey)) by (apply Z.pow_pos_nonneg; lia).
  nia.
Qed.

Lemma to_int_bounded n x :
  0 <= n -> bounded_by n x ->
  exists v, to_int x = Ok v /\ floor x = Some v /\ 0 <= v <= n.
Proof.
  intros Hn Hb. destruct x as [s|s| |s m e]; cbn in Hb; try contradiction.
  - exists 0. cbn. repeat split; lia.
  - pose proof (trunc_bounded n s m e Hb) as Ht. destruct Hb as (-> & _).
    exists (trunc_mag m e). cbn [to_int]. split; [reflexivity|]. split.
    + unfold floor. cbn. f_equal. apply trunc_mag_floor.
    + split; [apply trunc_mag_nonneg|exact Ht].
Qed.

(** For a fraction [f] and a count [n] below [2^53], [int(n * f)] is
    defined, is the floor of the float product, and lies between 0 and
    [n]. *)
Lemma int_mul_fraction n f :
  0 <= n < 2 ^ prec -> is_fraction f ->
  exists p v, int_mul n f = Ok p /\ to_int p = Ok v /\
              floor p = Some v /\ 0 <= v <= n.
Proof.
  intros Hn Hf. destruct (of_int_bounded n Hn) as (nf & Hnf & Hbn).
  apply is_fraction_bounded in Hf.
  pose proof (mul_bounded n nf f Hn Hbn Hf) as Hb.
  destruct (to_int_bounded n (mul nf f) ltac:(lia) Hb) as (v & Hv & Hfl & Hrange).
  exists (mul nf f), v. unfold int_mul. rewrite Hnf. cbn. auto.
Qed.

End Float64Facts.

(** ** Signs in binary32 *)

Module Float32Facts.
Import Float32.

Lemma shr_fexp32_nonneg m e l :
  0 <= m -> 0 <= shr_m (fst (shr_fexp prec emax m e l)).
Proof.
  intros Hm. unfold shr_fexp. apply Float64Facts.shr_nonneg.
  destruct l as [|[| |]]; cbn; exact Hm.
Qed.

(** Rounding keeps the sign it is given, whether the result is a zero, a
    finite value or, after overflow, an infinity. *)
Lemma binary_round_aux_signed s m e l :
  0 <= m -> signed s (binary_round_aux prec emax s m e l).
Proof.
  intros Hm. unfold binary_round_aux.
  pose proof (shr_fexp32_nonneg m e l Hm) as H1.
  destruct (shr_fexp prec emax m e l) as [mrs' e']. cbn [fst] in H1.
  pose proof (shr_fexp32_nonneg
                (round_nearest_even (shr_m mrs') (loc_of_shr_record mrs')) e'
                loc_Exact (Float64Facts.round_nearest_even_nonneg _ _ H1)) as H2.
  destruct (shr_fexp prec emax _ e' loc_Exact) as [mrs'' e'']. cbn [fst] in H2.
  destruct (shr_m mrs'') as [|p|p]; cbn; [reflexivity| |lia].
  destruct (e'' <=? emax - prec); reflexivity.
Qed.

Lemma binary_normalize_neg_signed p e :
  signed true (binary_normalize prec emax (Z.neg p) e false).
Proof.
  cbn [binary_normalize]. unfold binary_round.
  destruct (shl_align _ _ _) as [mz ez]. apply binary_round_aux_signed. lia.
Qed.

(** The quotient of the division of two positive mantissas is not
    negative. *)
Lemma div_core_nonneg mx ex my ey :
  0 <= fst (fst (SFdiv_core_binary prec emax (Z.pos mx) ex (Z.pos my) ey)).
Proof.
  unfold SFdiv_core_binary.
  set (s := ex - ey - _).
  set (m' := match s with Z.pos _ => Z.shiftl (Z.pos mx) s | Z0 => Z.pos mx | Z.neg _ => 0 end).
  assert (Hm' : 0 <= m').
  { unfold m'. destruct s; [lia| |lia]. apply Z.shiftl_nonneg. lia. }
  pose proof (Z.div_pos m' (Z.pos my) Hm' ltac:(lia)) as Hq.
  unfold Z.div in Hq. destruct (Z.div_eucl m' (Z.pos my)) as [q r]. exact Hq.
Qed.

(** The floats that compare [<= 0]: the zeros, and the negative finite
    values and infinity. *)
Definition at_most_zero (x : float) : Prop :=
  match x with
  | S754_zero _ => True
  | S754_finite s _ _ | S754_infinity s => s = true
  | S754_nan => False
  end.

Lemma leb_zero_iff x : SFleb x zero = true <-> at_most_zero x.
Proof.
  destruct x as [s|s| |s m e]; try destruct s; cbn; split; intros H;
    try reflexivity; try exact I; try discriminate; contradiction.
Qed.

Lemma signed_at_most_zero x : signed true x -> at_most_zero x.
Proof. destruct x as [s|s| |s m e]; cbn; auto. Qed.

Lemma add_at_most_zero a b :
  at_most_zero a -> at_most_zero b -> at_most_zero (add a b).
Proof.
  destruct a as [sa|sa| |sa ma ea], b as [sb|sb| |sb mb eb]; cbn;
    intros Ha Hb; subst; try contradiction; try reflexivity; try exact I.
  - destruct sa, sb; exact I.
  - apply signed_at_most_zero. unfold add. cbn [SFadd cond_Zopp].
    destruct (shl_align ma ea (Z.min ea eb)) as [pa ?],
             (shl_align mb eb (Z.min ea eb)) as [pb ?]. cbn [fst].
    change (- Z.pos pa + - Z.pos pb) with (Z.neg (pa + pb)).
    apply binary_normalize_neg_signed.
Qed.

Lemma mul_zero_at_most_zero a :
  at_most_zero a -> finite a -> at_most_zero (mul a zero).
Proof. destruct a as [sa|sa| |sa ma ea]; cbn; intros Ha Hf; try contradiction; exact I. Qed.

Lemma mul_one_at_most_zero a : at_most_zero a -> at_most_zero (mul a one).
Proof.
  destruct a as [sa|sa| |sa ma ea]; cbn [at_most_zero]; intros Ha; subst;
    try contradiction.
  - exact I.
  - reflexivity.
  - apply signed_at_most_zero. unfold mul, one. cbn [SFmul xorb].
    apply binary_round_aux_signed. lia.
Qed.

Lemma div_at_most_zero a d :
  at_most_zero a -> positive d -> at_most_zero (div a d).
Proof.
  destruct d as [sd|sd| |[|] md ed]; cbn [positive]; intros Ha Hd; try contradiction.
  destruct a as [sa|sa| |sa ma ea]; cbn [at_most_zero] in Ha; subst;
    try contradiction.
  - exact I.
  - reflexivity.
  - apply signed_at_most_zero. unfold div. cbn [SFdiv xorb].
    pose proof (div_core_nonneg ma ea md ed) as Hq.
    destruct (SFdiv_core_binary prec emax (Z.pos ma) ea (Z.pos md) ed) as [[mz ez] lz].
    cbn [fst] in Hq. apply binary_round_aux_signed, Hq.
Qed.

Lemma opp_at_most_zero a : at_most_zero a -> SFleb zero (SFopp a) = true.
Proof. destruct a as [sa|sa| |sa ma ea]; cbn; intros Ha; subst; try contradiction; reflexivity. Qed.

(** Binary32 has the laws that the sign of the loss rests on. *)
Lemma sign_laws : @SignLaws float scalar signs.
Proof.
  split; cbn [fle ffinite fpos signs fzero fone fadd fmul fdiv fneg scalar].
  - reflexivity.
  - intros a b Ha Hb. apply leb_zero_iff, add_at_most_zero; apply leb_zero_iff; assumption.
  - intros a Ha Hf. apply leb_zero_iff, mul_zero_at_most_zero; [apply leb_zero_iff|]; assumption.
  - intros a Ha. apply leb_zero_iff, mul_one_at_most_zero, leb_zero_iff, Ha.
  - intros a d Ha Hd. apply leb_zero_iff, div_at_most_zero; [apply leb_zero_iff|]; assumption.
  - intros a Ha. apply opp_at_most_zero, leb_zero_iff, Ha.
Qed.

End Float32Facts.

(** ** The split *)

Section SplitFacts.
Context {Image Label : Type}.
Implicit Types (images : list Image) (labels : list Label).
Implicit Types (env : Env Image Label) (cfg : Config).

(** What a successful run of cell 4 computed. *)
Lemma split_inv cfg images labels env :
  split cfg images labels = Ok env ->
  let n := Z.of_nat (length images) in
  exists p v,
    Float64.int_mul n (validation_split cfg) = Ok p /\
    Float64.to_int p = Ok v /\
    batch_size cfg <> 0 /\
    val_samples env = v /\
    train_samples env = n - v /\
    train_images env = Py.slice_to images (n - v) /\
    val_images env = Py.slice_from images (n - v) /\
    train_labels env = Py.slice_to labels (n - v) /\
    val_labels env = Py.slice_from labels (n - v) /\
    num_batches env =
      (n - v) / batch_size cfg
      + Py.int_of_bool (Py.bool ((n - v) mod batch_size cfg)).
Proof.
  intros Hs n. unfold split in Hs. fold n in Hs.
  apply bind_Ok_inv in Hs as (v & Hv & Hs).
  unfold compute_val_samples in Hv.
  apply bind_Ok_inv in Hv as (p & Hp & Hv).
  unfold Py.divmod in Hs.
  destruct (Z.eqb_spec (batch_size cfg) 0) as [|Hb]; [discriminate|].
  cbn in Hs. injection Hs as <-. cbn.
  exists p, v. repeat split; auto.
Qed.

(** A non-negative fraction gives a non-negative validation size, which is
    the floor of the float product. *)
Lemma val_samples_floor (n : Z) (f p : Float64.float) (v : Z) :
  0 <= n -> Float64.nonneg f ->
  Float64.int_mul n f = Ok p -> Float64.to_int p = Ok v ->
  Float64.floor p = Some v /\ 0 <= v.
Proof.
  intros Hn Hf Hp Hv. unfold Float64.int_mul in Hp.
  apply bind_Ok_inv in Hp as (nf & Hnf & Hp). injection Hp as <-.
  apply Float64Facts.of_int_nonneg in Hnf; [|exact Hn].
  destruct (Float64Facts.mul_nonneg nf f Hnf Hf) as [Hnan|Hnn].
  - rewrite Hnan in Hv. discriminate.
  - split.
    + apply Float64Facts.to_int_floor; assumption.
    + eapply Float64Facts.to_int_nonneg; eassumption.
Qed.

Lemma slice_bound_le (len : nat) (k : Z) : (slice_bound len k <= len)%nat.
Proof. unfold slice_bound. destruct (Z.ltb_spec k 0); lia. Qed.

Lemma slice_to_from {A} (l : list A) (k : Z) :
  Py.slice_to l k ++ Py.slice_from l k = l.
Proof. apply take_drop. Qed.

Lemma slice_to_indices_spec {A} (l : list A) (k : Z) (j i : nat) :
  Py.slice_to_indices (length l) k !! j = Some i -> Py.slice_to l k !! j = l !! i.
Proof.
  unfold Py.slice_to_indices, Py.slice_to. intros Hj.
  apply lookup_seq in Hj as [-> Hlt]. cbn. apply lookup_take_lt, Hlt.
Qed.

Lemma slice_from_indices_spec {A} (l : list A) (k : Z) (j i : nat) :
  Py.slice_from_indices (length l) k !! j = Some i -> Py.slice_from l k !! j = l !! i.
Proof.
  unfold Py.slice_from_indices, Py.slice_from. intros Hj.
  apply lookup_seq in Hj as [-> Hlt]. apply lookup_drop.
Qed.

Lemma slice_indices_partition (len : nat) (k : Z) :
  Py.slice_to_indices len k ++ Py.slice_from_indices len k = seq 0 len /\
  (forall i, i ∈ Py.slice_to_indices len k -> i ∉ Py.slice_from_indices len k).
Proof.
  unfold Py.slice_to_indices, Py.slice_from_indices.
  pose proof (slice_bound_le len k) as Hle. split.
  - rewrite <- seq_app. f_equal. lia.
  - intros i Hi Hi'. apply elem_of_seq in Hi, Hi'. lia.
Qed.

End SplitFacts.


(** ** The batch generator *)

Section DataStreamFacts.
Context `{NR : NumpyRandom} {Image Label : Type}.
Variable cfg : Config.
Variable env : Env Image Label.

#[local] Abbreviation bsz := (Z.to_nat (batch_size cfg)).

(** A chunk of the permutation, for a positive batch size. *)
Lemma batch_idx_take_drop (perm : list nat) (i : nat) :
  1 <= batch_size cfg ->
  batch_idx cfg perm i = take bsz (drop (i * bsz) perm).
Proof.
  intros Hb. unfold batch_idx. rewrite slice_nonneg by nia.
  f_equal; [|f_equal]; nia.
Qed.

Lemma batch_idx_length_le (perm : list nat) (i : nat) :
  1 <= batch_size cfg ->
  Z.of_nat (length (batch_idx cfg perm i)) <= batch_size cfg.
Proof.
  intros Hb. rewrite batch_idx_take_drop by exact Hb. rewrite length_take. lia.
Qed.

(** Every batch comes from [batch_at]. *)
Lemma batch_at_rows (perm : list nat) (i : nat) (x : list Image) (y : list Label) :
  batch_at cfg env perm i = Ok (x, y) ->
  length x = length (batch_idx cfg perm i) /\ length y = length (batch_idx cfg perm i).
Proof.
  unfold batch_at. intros Hb.
  apply bind_Ok_inv in Hb as (x' & Hx & Hb).
  apply bind_Ok_inv in Hb as (y' & Hy & Hb).
  injection Hb as <- <-.
  split; eapply take_rows_length; eassumption.
Qed.

Lemma for_loop_yield rng perm i b g :
  for_loop cfg env rng perm i = Some (Yielded (b, g)) ->
  batch_at cfg env perm i = Ok b /\ g = Suspended rng perm i /\
  Z.of_nat i < num_batches env.
Proof.
  unfold for_loop. destruct (Z.ltb_spec (Z.of_nat i) (num_batches env)); [|discriminate].
  destruct (batch_at cfg env perm i) as [b'|e]; cbn; [|discriminate].
  intros [= <- <-]. auto.
Qed.

Lemma while_true_yield fuel rng b g :
  while_true cfg env fuel rng = Yielded (b, g) ->
  exists rng' perm, batch_at cfg env perm 0 = Ok b /\ g = Suspended rng' perm 0.
Proof.
  revert rng. induction fuel as [|fuel IH]; intros rng; cbn [while_true]; [discriminate|].
  destruct (np_permutation rng (train_samples env)) as [perm rng'].
  intros Hw. destruct (for_loop cfg env rng' perm 0) as [o|] eqn:Hfor.
  - subst o. apply for_loop_yield in Hfor as (Hb & -> & _). eauto.
  - eapply IH, Hw.
Qed.

Lemma next_yield fuel g b g' :
  next cfg env fuel g = Yielded (b, g') ->
  exists rng perm i, batch_at cfg env perm i = Ok b /\ g' = Suspended rng perm i.
Proof.
  destruct g as [|rng perm i|]; cbn [next].
  - intros Hw. apply while_true_yield in Hw as (rng' & perm & Hb & ->). eauto.
  - destruct (for_loop cfg env rng perm (S i)) as [o|] eqn:Hfor.
    + intros ->. apply for_loop_yield in Hfor as (Hb & -> & _). eauto.
    + intros Hw. apply while_true_yield in Hw as (rng' & perm' & Hb & ->). eauto.
  - discriminate.
Qed.

End DataStreamFacts.

(** C3.  For every batch size [b >= 1], whatever [next] yields, in any
    state of the generator, is a pair of an image array and a label array
    with the same number of rows, and that number is at most [b]. *)
Theorem batch_rows_match `{NR : NumpyRandom} {Image Label : Type} (cfg : Config)
  (env : Env Image Label) (fuel : nat) (g g' : gen_state)
  (x : list Image) (y : list Label) :
  1 <= batch_size cfg ->
  next cfg env fuel g = Yielded ((x, y), g') ->
  length x = length y /\ Z.of_nat (length x) <= batch_size cfg.
Proof.
  intros Hb Hn. apply next_yield in Hn as (rng & perm & i & Hat & _).
  apply batch_at_rows in Hat as [Hx Hy].
  pose proof (batch_idx_length_le cfg perm i Hb). split; lia.
Qed.

Section Epochs.
Context `{NR : NumpyRandom} {Image Label : Type}.
Variable cfg : Config.
Variable images : list Image.
Variable labels : list Label.
Variable env : Env Image Label.

Hypothesis Hsplit : split cfg images labels = Ok env.
Hypothesis Hbatch : 1 <= batch_size cfg.
Hypothesis Hfrac : Float64.nonneg (validation_split cfg).
Hypothesis Hlabels : length labels = length images.
Hypothesis Hnonempty : 0 < train_samples env.

#[local] Abbreviation N := (Z.to_nat (train_samples env)).
#[local] Abbreviation nb := (Z.to_nat (num_batches env)).

Lemma train_rows :
  length (train_images env) = N /\ length (train_labels env) = N.
Proof using All.
  pose proof (split_inv _ _ _ _ Hsplit)
    as (p & v & Hp & Hv & _ & Hvs & Hts & Hti & _ & Htl & _ & _).
  destruct (val_samples_floor (Z.of_nat (length images)) _ p v ltac:(lia) Hfrac Hp Hv)
    as [_ Hv0].
  rewrite Hti, Htl, <- Hts, !slice_to_nonneg, !length_take by lia. lia.
Qed.

(** [num_batches] is the ceiling of [train_samples / batch_size]. *)
Lemma num_batches_ceil :
  num_batches env = (train_samples env + batch_size cfg - 1) / batch_size cfg /\
  (num_batches env - 1) * batch_size cfg < train_samples env
    <= num_batches env * batch_size cfg.
Proof using All.
  pose proof (split_inv _ _ _ _ Hsplit)
    as (p & v & _ & _ & _ & _ & Hts & _ & _ & _ & _ & Hnb).
  rewrite <- Hts in Hnb. rewrite Hnb.
  set (t := train_samples env). set (b := batch_size cfg) in *.
  pose proof (Z.div_mod t b ltac:(lia)) as Hdm.
  pose proof (Z.mod_pos_bound t b ltac:(lia)) as Hmb.
  unfold Py.bool, Py.int_of_bool.
  destruct (Z.eqb_spec (t mod b) 0) as [Hz|Hnz]; cbn [negb].
  - split; [|nia]. apply Z.div_unique with (b - 1); lia.
  - split; [|nia]. apply Z.div_unique with (t mod b - 1); lia.
Qed.

Lemma num_batches_pos : (0 < nb)%nat.
Proof using All.
  destruct num_batches_ceil as [_ [_ Hle]]. nia.
Qed.

(** On a permutation of the training indices no batch raises. *)
Lemma batch_at_ok (perm : list nat) (i : nat) :
  perm ≡ₚ seq 0 N -> exists b, batch_at cfg env perm i = Ok b.
Proof using All.
  intros Hperm. destruct train_rows as [Hx Hy].
  assert (Hidx : Forall (fun j => (j < N)%nat) (batch_idx cfg perm i)).
  { rewrite batch_idx_take_drop by exact Hbatch.
    apply Forall_take, Forall_drop. rewrite Hperm.
    apply Forall_forall. intros j Hj. apply elem_of_seq in Hj. lia. }
  unfold batch_at.
  destruct (take_rows_in_range (train_images env) (batch_idx cfg perm i)) as [x ->];
    [rewrite Hx; exact Hidx|].
  destruct (take_rows_in_range (train_labels env) (batch_idx cfg perm i)) as [y ->];
    [rewrite Hy; exact Hidx|].
  cbn. eauto.
Qed.

Lemma all_batches_ok (perm : list nat) (js : list nat) :
  perm ≡ₚ seq 0 N -> exists bs, all_ok (map (batch_at cfg env perm) js) = Ok bs.
Proof using All.
  intros Hperm. induction js as [|j js [bs IH]]; cbn [map all_ok]; [eauto|].
  destruct (batch_at_ok perm j Hperm) as [b ->]. rewrite IH. cbn. eauto.
Qed.

(** Inside a pass, [m] calls of [next] walk through the next [m] chunks. *)
Lemma consume_for fuel rng perm (m i : nat) bs :
  (i + m < nb)%nat ->
  all_ok (map (batch_at cfg env perm) (seq (S i) m)) = Ok bs ->
  consume cfg env fuel m (Suspended rng perm i)
  = Yielded (bs, Suspended rng perm (i + m)).
Proof using All.
  revert i bs. induction m as [|m IH]; intros i bs Hi Hbs.
  - cbn in Hbs. injection Hbs as <-. cbn. do 3 f_equal. lia.
  - cbn [seq map all_ok] in Hbs.
    apply bind_Ok_inv in Hbs as (b & Hb & Hbs).
    apply bind_Ok_inv in Hbs as (bs' & Hbs' & Hbs). injection Hbs as <-.
    cbn [consume next]. unfold for_loop.
    destruct (Z.ltb_spec (Z.of_nat (S i)) (num_batches env)) as [_|Hge]; [|lia].
    rewrite Hb. cbn. rewrite (IH (S i) bs') by (lia || exact Hbs'). cbn.
    do 3 f_equal. lia.
Qed.

(** The [while] loop draws a permutation and yields its first chunk. *)
Lemma while_true_first fuel rng :
  while_true cfg env (S fuel) rng
  = (b ← of_result (batch_at cfg env (fst (permutation rng N)) 0);
     Yielded (b, Suspended (snd (permutation rng N)) (fst (permutation rng N)) 0)).
Proof using All.
  cbn [while_true]. unfold np_permutation.
  destruct (permutation rng N) as [perm rng']. cbn [fst snd].
  unfold for_loop. pose proof num_batches_pos.
  destruct (Z.ltb_spec (Z.of_nat 0) (num_batches env)) as [_|Hge]; [reflexivity|lia].
Qed.

(** One full pass, from the boundary after [k] passes. *)
Lemma consume_epoch fuel k :
  exists bs,
    epoch_batches cfg env (epoch_perm env k) = Ok bs /\
    consume cfg env (S fuel) nb (epoch_start env k)
    = Yielded (bs, epoch_start env (S k)).
Proof using All.
  pose proof num_batches_pos as Hnb.
  assert (Hperm : epoch_perm env k ≡ₚ seq 0 N) by apply permutation_perm.
  destruct (all_batches_ok (epoch_perm env k) (seq 0 nb) Hperm) as [bs Hbs].
  exists bs. split; [exact Hbs|].
  destruct nb as [|m] eqn:Hm; [lia|].
  cbn [seq map all_ok] in Hbs.
  apply bind_Ok_inv in Hbs as (b & Hb & Hbs).
  apply bind_Ok_inv in Hbs as (bs' & Hbs' & Hbs). injection Hbs as <-.
  assert (Hnext : next cfg env (S fuel) (epoch_start env k)
                  = Yielded (b, Suspended (epoch_rng env (S k)) (epoch_perm env k) 0)).
  { destruct k as [|k']; cbn [epoch_start next].
    - rewrite while_true_first. change (fst (permutation (seed_state 0) N))
        with (epoch_perm env 0). rewrite Hb. reflexivity.
    - unfold for_loop.
      destruct (Z.ltb_spec (Z.of_nat (S (nb - 1))) (num_batches env)) as [Hlt|_]; [lia|].
      rewrite while_true_first.
      change (fst (permutation (epoch_rng env (S k')) N)) with (epoch_perm env (S k')).
      rewrite Hb. reflexivity. }
  cbn [consume]. rewrite Hnext. cbn.
  rewrite (consume_for (S fuel) _ _ m 0 bs') by (lia || exact Hbs'). cbn.
  unfold epoch_start. rewrite Hm. do 3 f_equal. lia.
Qed.

Lemma consume_app fuel (a b : nat) g :
  consume cfg env fuel (a + b) g
  = ('(bs1, g1) ← consume cfg env fuel a g;
     '(bs2, g2) ← consume cfg env fuel b g1;
     Yielded (bs1 ++ bs2, g2)).
Proof using All.
  revert g. induction a as [|a IH]; intros g; cbn [consume Nat.add].
  - cbn. destruct (consume cfg env fuel b g) as [[bs2 g2]| |]; reflexivity.
  - destruct (next cfg env fuel g) as [[b0 g0]| |]; cbn; [|reflexivity..].
    rewrite IH. destruct (consume cfg env fuel a g0) as [[bs1 g1]| |]; cbn; [|reflexivity..].
    destruct (consume cfg env fuel b g1) as [[bs2 g2]| |]; reflexivity.
Qed.

(** [k] full passes bring a fresh generator to the boundary of pass [k]. *)
Lemma consume_epochs fuel k :
  exists bs, consume cfg env (S fuel) (k * nb) Created = Yielded (bs, epoch_start env k).
Proof using All.
  induction k as [|k [bs IH]].
  - exists []. reflexivity.
  - destruct (consume_epoch fuel k) as (bs' & _ & Hc).
    exists (bs ++ bs'). replace (S k * nb)%nat with (k * nb + nb)%nat by lia.
    rewrite consume_app, IH. cbn. rewrite Hc. reflexivity.
Qed.

End Epochs.

(** ** Chunks of a permutation *)

Lemma concat_chunks {A} (l : list A) (b m : nat) :
  concat (map (fun i => take b (drop (i * b) l)) (seq 0 m)) = take (m * b) l.
Proof.
  induction m as [|m IH]; [reflexivity|].
  rewrite seq_S, map_app, concat_app, IH. cbn [map concat Nat.add].
  rewrite app_nil_r, take_take_drop. f_equal. lia.
Qed.

Lemma all_ok_Forall2 {A B} (f : A -> result B) (l : list A) (bs : list B) :
  all_ok (map f l) = Ok bs -> Forall2 (fun a b => f a = Ok b) l bs.
Proof.
  revert bs. induction l as [|a l IH]; intros bs Hbs; cbn [map all_ok] in Hbs.
  - injection Hbs as <-. constructor.
  - apply bind_Ok_inv in Hbs as (b & Hb & Hbs).
    apply bind_Ok_inv in Hbs as (bs' & Hbs' & Hbs). injection Hbs as <-.
    constructor; [exact Hb|]. apply IH, Hbs'.
Qed.

Lemma batch_at_inv `{NR : NumpyRandom} {Image Label : Type} (cfg : Config)
  (env : Env Image Label) (perm : list nat) (i : nat) (b : list Image * list Label) :
  batch_at cfg env perm i = Ok b ->
  take_rows (train_images env) (batch_idx cfg perm i) = Ok (fst b) /\
  take_rows (train_labels env) (batch_idx cfg perm i) = Ok (snd b).
Proof.
  unfold batch_at. intros Hb.
  apply bind_Ok_inv in Hb as (x & Hx & Hb).
  apply bind_Ok_inv in Hb as (y & Hy & Hb). injection Hb as <-. auto.
Qed.

(** The chunks of a pass, put together, are the permutation; and the
    batches of a pass are the rows at its chunks. *)
Lemma epoch_chunks_concat `{NR : NumpyRandom} {Image Label : Type} (cfg : Config)
  (env : Env Image Label) (perm : list nat) :
  1 <= batch_size cfg ->
  Z.of_nat (length perm) <= num_batches env * batch_size cfg ->
  concat (epoch_chunks cfg env perm) = perm.
Proof.
  intros Hb Hlen. unfold epoch_chunks.
  rewrite (map_ext _ (fun i => take (Z.to_nat (batch_size cfg))
                                 (drop (i * Z.to_nat (batch_size cfg)) perm)))
    by (intros i; apply batch_idx_take_drop, Hb).
  rewrite concat_chunks. apply take_ge. nia.
Qed.

Lemma epoch_batches_rows `{NR : NumpyRandom} {Image Label : Type} (cfg : Config)
  (env : Env Image Label) (perm : list nat) (bs : list (list Image * list Label)) :
  epoch_batches cfg env perm = Ok bs ->
  Forall2 (fun chunk b =>
             take_rows (train_images env) chunk = Ok (fst b) /\
             take_rows (train_labels env) chunk = Ok (snd b))
          (epoch_chunks cfg env perm) bs.
Proof.
  intros Hbs. unfold epoch_chunks. apply Forall2_fmap_l.
  apply all_ok_Forall2 in Hbs.
  eapply Forall2_impl; [exact Hbs|]. intros i b Hi. cbn. apply batch_at_inv, Hi.
Qed.

(** C4.  With a non-empty training set and a batch size [b >= 1], pass
    number [k] of the generator (for every [k]) consists of
    [num_batches = ceil (train_samples / b)] batches; they are the rows at
    the consecutive chunks of one permutation of the training indices, the
    one drawn for that pass from the generator state that the pass before
    left; the chunks together are that permutation, so every training index
    occurs in exactly one of them, exactly once; every chunk but the last
    has [b] indices and the last has between 1 and [b]. *)
Theorem epoch_is_chunked_permutation `{NR : NumpyRandom} {Image Label : Type}
  (cfg : Config) (images : list Image) (labels : list Label)
  (env : Env Image Label) (k fuel : nat) :
  split cfg images labels = Ok env ->
  1 <= batch_size cfg ->
  Float64.nonneg (validation_split cfg) ->
  length labels = length images ->
  0 < train_samples env ->
  let nb := Z.to_nat (num_batches env) in
  let perm := epoch_perm env k in
  let chunks := epoch_chunks cfg env perm in
  num_batches env = (train_samples env + batch_size cfg - 1) / batch_size cfg /\
  (exists before bs,
     consume cfg env (S fuel) (k * nb) (data_stream tt)
       = Yielded (before, epoch_start env k) /\
     consume cfg env (S fuel) nb (epoch_start env k)
       = Yielded (bs, epoch_start env (S k)) /\
     Forall2 (fun chunk b =>
                take_rows (train_images env) chunk = Ok (fst b) /\
                take_rows (train_labels env) chunk = Ok (snd b)) chunks bs) /\
  perm = fst (permutation (epoch_rng env k) (Z.to_nat (train_samples env))) /\
  perm ≡ₚ seq 0 (Z.to_nat (train_samples env)) /\
  concat chunks = perm /\
  length chunks = nb /\
  (forall i chunk, chunks !! i = Some chunk ->
     1 <= Z.of_nat (length chunk) <= batch_size cfg /\
     ((S i < nb)%nat -> Z.of_nat (length chunk) = batch_size cfg)).
Proof.
  intros Hs Hb Hf Hl Hne nb perm chunks.
  destruct (num_batches_ceil cfg images labels env Hs Hb Hf Hl Hne) as [Hceil [Hlo Hhi]].
  assert (Hperm : perm ≡ₚ seq 0 (Z.to_nat (train_samples env)))
    by apply permutation_perm.
  assert (Hlen : length perm = Z.to_nat (train_samples env)).
  { rewrite Hperm. apply length_seq. }
  repeat match goal with |- _ /\ _ => split end.
  - exact Hceil.
  - destruct (consume_epochs cfg images labels env Hs Hb Hf Hl Hne fuel k) as [before Hbefore].
    destruct (consume_epoch cfg images labels env Hs Hb Hf Hl Hne fuel k) as (bs & Hbs & Hc).
    exists before, bs. repeat split; [exact Hbefore|exact Hc|].
    apply epoch_batches_rows, Hbs.
  - reflexivity.
  - exact Hperm.
  - apply epoch_chunks_concat; [exact Hb|lia].
  - unfold chunks, epoch_chunks. rewrite length_map, length_seq. reflexivity.
  - intros i chunk Hc. unfold chunks, epoch_chunks in Hc.
    apply list_lookup_fmap_Some in Hc as (j & -> & Hj).
    apply lookup_seq in Hj as [-> Hi]. cbn in Hi |- *.
    rewrite batch_idx_take_drop by exact Hb.
    rewrite length_take, length_drop, Hlen. subst nb. split; [nia|]. intros Hi'. nia.
Qed.

(** ** The stream does not end *)

Section Endless.
Context `{NR : NumpyRandom} {Image Label : Type}.
Variable cfg : Config.
Variable env : Env Image Label.

(** If [a + b] calls all yield, so do the first [a]. *)
Lemma consume_prefix fuel (a b : nat) g r :
  consume cfg env fuel (a + b) g = Yielded r ->
  exists bs g1, consume cfg env fuel a g = Yielded (bs, g1).
Proof.
  revert g r. induction a as [|a IH]; intros g r; cbn [consume Nat.add].
  - eauto.
  - destruct (next cfg env fuel g) as [[b0 g0]| |]; cbn; [|discriminate..].
    destruct (consume cfg env fuel (a + b) g0) as [[bs' g']| |] eqn:Hc; cbn;
      [|discriminate..].
    intros _. destruct (IH _ _ Hc) as (bs & g1 & ->). cbn. eauto.
Qed.

Lemma consume_S_nth fuel n g bs g' :
  consume cfg env fuel (S n) g = Yielded (bs, g') ->
  exists b, nth_batch cfg env fuel n g = Yielded b /\ last bs = Some b.
Proof.
  replace (S n) with (n + 1)%nat by lia.
  revert g bs g'. induction n as [|n IH]; intros g bs g'; unfold nth_batch;
    cbn [consume Nat.add].
  - cbn. destruct (next cfg env fuel g) as [[b0 g0]| |]; cbn; [|discriminate..].
    intros [= <- <-]. eauto.
  - destruct (next cfg env fuel g) as [[b0 g0]| |]; cbn; [|discriminate..].
    destruct (consume cfg env fuel (n + 1) g0) as [[bs' g1]| |] eqn:Hc; cbn;
      [|discriminate..].
    intros [= <- <-]. destruct (IH _ _ _ Hc) as (b & Hb & Hlast).
    exists b. unfold nth_batch in Hb.
    destruct (consume cfg env fuel n g0) as [[bs0 g2]| |]; cbn in Hb |- *;
      [|discriminate..].
    split; [exact Hb|].
    destruct bs' as [|b' bs'']; [discriminate|]. exact Hlast.
Qed.

(** When [num_batches] is not positive (an empty training set), the body
    of [while True] yields nothing: the first [next] never returns. *)
Lemma while_true_empty fuel rng :
  num_batches env <= 0 ->
  while_true cfg env fuel rng = OutOfFuel.
Proof.
  intros Hnb. revert rng. induction fuel as [|fuel IH]; intros rng; [reflexivity|].
  cbn [while_true]. unfold np_permutation, for_loop.
  destruct (permutation rng _) as [perm rng'].
  destruct (Z.ltb_spec (Z.of_nat 0) (num_batches env)) as [Hlt|_]; [lia|]. apply IH.
Qed.

End Endless.

(** C9.  With a non-empty training set, the [n]-th [next] on a generator
    made by [data_stream()] yields a batch, for every [n]: no call raises,
    none fails to return (one turn of the [while] loop is enough for each),
    and the generator never finishes. *)
Theorem data_stream_endless `{NR : NumpyRandom} {Image Label : Type}
  (cfg : Config) (images : list Image) (labels : list Label)
  (env : Env Image Label) (n fuel : nat) :
  split cfg images labels = Ok env ->
  1 <= batch_size cfg ->
  Float64.nonneg (validation_split cfg) ->
  length labels = length images ->
  0 < train_samples env ->
  exists b, nth_batch cfg env (S fuel) n (data_stream tt) = Yielded b.
Proof.
  intros Hs Hb Hf Hl Hne.
  pose proof (num_batches_pos cfg images labels env Hs Hb Hf Hl Hne) as Hnb.
  destruct (consume_epochs cfg images labels env Hs Hb Hf Hl Hne fuel (S n)) as [bs Hc].
  set (nb := Z.to_nat (num_batches env)) in *.
  replace (S n * nb)%nat with (S n + (S n * nb - S n))%nat in Hc by nia.
  apply consume_prefix in Hc as (bs' & g' & Hc).
  apply consume_S_nth in Hc as (b & Hb' & _). eauto.
Qed.

(** ** Restarting the generator *)

Section Restart.
Context `{NR : NumpyRandom} {F : Type} `{HK : Haiku F}.
Variable cfg : Config.
Variable env : Env (list F) (list F).

(** [next(batches)] repeated is [consume] on the generator object; the
    rest of the world is left as it was. *)
Lemma next_batches_n_consume fuel n (w : World) bs g :
  consume cfg env fuel n (batches w) = Yielded (bs, g) ->
  next_batches_n cfg env fuel n w
  = (Yielded bs, {| np_global := np_global w; batches := g; params := params w |}).
Proof.
  revert w bs g. induction n as [|n IH]; intros w bs g; cbn [consume next_batches_n].
  - intros [= <- <-]. destruct w; reflexivity.
  - unfold next_batches.
    destruct (next cfg env fuel (batches w)) as [[b0 g0]| |]; cbn; [|discriminate..].
    destruct (consume cfg env fuel n g0) as [[bs' g']| |] eqn:Hc; cbn; [|discriminate..].
    intros [= <- <-].
    rewrite (IH {| np_global := np_global w; batches := g0; params := params w |} bs' g')
      by exact Hc.
    reflexivity.
Qed.

End Restart.

(** C10.  Any two generators made by [data_stream()] produce the same
    sequence of batches, in whatever worlds they are made (whatever was
    drawn before from NumPy's process-wide generator or from an earlier
    [batches] object): each seeds a generator of its own with 0.  The
    outcomes agree call by call, also where a call raises or does not
    return. *)
Theorem data_stream_same_sequence `{NR : NumpyRandom} {F : Type} `{HK : Haiku F}
  (cfg : Config) (env : Env (list F) (list F)) (w1 w2 : World) (fuel n : nat) :
  fst (next_batches_n cfg env fuel n (assign_data_stream w1))
  = fst (next_batches_n cfg env fuel n (assign_data_stream w2)).
Proof.
  set (u1 := assign_data_stream w1). set (u2 := assign_data_stream w2).
  assert (Hb : batches u1 = batches u2) by reflexivity.
  clearbody u1 u2. revert u1 u2 Hb.
  induction n as [|n IH]; intros u1 u2 Hb; cbn [next_batches_n]; [reflexivity|].
  unfold next_batches. rewrite Hb.
  destruct (next cfg env fuel (batches u2)) as [[b0 g0]| |]; cbn; [|reflexivity..].
  specialize (IH {| np_global := np_global u1; batches := g0; params := params u1 |}
                 {| np_global := np_global u2; batches := g0; params := params u2 |}
                 eq_refl).
  destruct (next_batches_n cfg env fuel n _) as [r1 u1'].
  destruct (next_batches_n cfg env fuel n _) as [r2 u2'].
  cbn [fst] in *. rewrite IH. reflexivity.
Qed.

(** C1, as amended.  Restarting the generator after exactly one pass gives
    the first pass again: the restarted generator's first [num_batches]
    batches are the same batches, in the same order, as the first
    [num_batches] batches of the original, and they are the rows at the
    chunks of the first permutation, which cover every training index
    once. *)
Theorem restart_repeats_first_epoch `{NR : NumpyRandom} {F : Type} `{HK : Haiku F}
  (cfg : Config) (images labels : list (list F)) (env : Env (list F) (list F))
  (w : World) (fuel : nat) :
  split cfg images labels = Ok env ->
  1 <= batch_size cfg ->
  Float64.nonneg (validation_split cfg) ->
  length labels = length images ->
  0 < train_samples env ->
  let nb := Z.to_nat (num_batches env) in
  let chunks := epoch_chunks cfg env (epoch_perm env 0) in
  exists bs w1 w2,
    next_batches_n cfg env (S fuel) nb (assign_data_stream w) = (Yielded bs, w1) /\
    next_batches_n cfg env (S fuel) nb (assign_data_stream w1) = (Yielded bs, w2) /\
    Forall2 (fun chunk b =>
               take_rows (train_images env) chunk = Ok (fst b) /\
               take_rows (train_labels env) chunk = Ok (snd b)) chunks bs /\
    concat chunks ≡ₚ seq 0 (Z.to_nat (train_samples env)).
Proof.
  intros Hs Hb Hf Hl Hne nb chunks.
  destruct (consume_epoch cfg images labels env Hs Hb Hf Hl Hne fuel 0) as (bs & Hbs & Hc).
  destruct (num_batches_ceil cfg images labels env Hs Hb Hf Hl Hne) as [_ [_ Hhi]].
  assert (Hperm : epoch_perm env 0 ≡ₚ seq 0 (Z.to_nat (train_samples env)))
    by apply permutation_perm.
  exists bs. eexists. eexists. split; [|split; [|split]].
  - apply next_batches_n_consume. exact Hc.
  - apply next_batches_n_consume. exact Hc.
  - apply epoch_batches_rows, Hbs.
  - unfold chunks. rewrite epoch_chunks_concat; [exact Hperm|exact Hb|].
    rewrite Hperm, length_seq. lia.
Qed.

(** ** Arrays *)

Lemma fold_left_ext_in {A B} (f g : A -> B -> A) (l : list B) (z : A) :
  (forall x acc, In x l -> f acc x = g acc x) ->
  fold_left f l z = fold_left g l z.
Proof.
  revert z. induction l as [|x l IH]; intros z Hfg; [reflexivity|].
  cbn [fold_left]. rewrite Hfg by (left; reflexivity).
  apply IH. intros x' acc Hx'. apply Hfg. right. exact Hx'.
Qed.

Section ArrayFacts.
Context {F : Type} `{SF : Scalar F}.
Implicit Types (a y : Jnp.matrix F) (r t v : list F).

Lemma broadcast_same {A B C} (f : A -> B -> C) (u : list A) (w : list B) :
  length u = length w -> Jnp.broadcast f u w = Ok (zip_with f u w).
Proof. intros Hl. unfold Jnp.broadcast. rewrite Hl, Nat.eqb_refl. reflexivity. Qed.

(** The product of two arrays of one shape is taken entry by entry. *)
Lemma multiply_same_shape rows cols a y :
  has_shape rows cols a -> has_shape rows cols y ->
  Jnp.multiply a y = Ok (zip_with (zip_with fmul) a y).
Proof.
  intros [Ha Hra] [Hy Hry]. unfold Jnp.multiply.
  rewrite broadcast_same by congruence. cbn.
  clear Ha Hy. revert y Hry.
  induction Hra as [|r a Hr _ IH]; intros y Hry; [destruct y; reflexivity|].
  destruct Hry as [|t y Ht Hry]; [reflexivity|].
  cbn [zip_with all_ok]. rewrite broadcast_same by congruence.
  rewrite IH by exact Hry. reflexivity.
Qed.

Lemma zip_with_shape rows cols a y :
  has_shape rows cols a -> has_shape rows cols y ->
  has_shape rows cols (zip_with (zip_with fmul) a y).
Proof.
  intros [Ha Hra] [Hy Hry]. split.
  - rewrite length_zip_with. lia.
  - clear Ha Hy. revert y Hry.
    induction Hra as [|r a Hr _ IH]; intros y Hry; [destruct y; constructor|].
    destruct Hry as [|t y Ht Hry]; [constructor|].
    cbn [zip_with]. constructor; [|apply IH, Hry].
    rewrite length_zip_with. lia.
Qed.

(** A left fold over a list is the indexed sum over its positions. *)
Lemma fold_left_indexed {A} (op : F -> A -> F) (l : list A) (d : A) (z : F) (s : nat) :
  fold_left op l z
  = fold_left (fun acc i => op acc (nth (i - s) l d)) (seq s (length l)) z.
Proof.
  revert z s. induction l as [|x l IH]; intros z s; [reflexivity|].
  cbn [fold_left length seq]. rewrite Nat.sub_diag. cbn [nth].
  rewrite (IH _ (S s)). apply fold_left_ext_in. intros i acc Hi.
  apply in_seq in Hi. replace (i - s)%nat with (S (i - S s)) by lia. reflexivity.
Qed.

Lemma fold_left_ext_seq (g1 g2 : nat -> F) (n : nat) (z : F) :
  (forall i, (i < n)%nat -> g1 i = g2 i) ->
  fold_left (fun acc i => fadd acc (g1 i)) (seq 0 n) z
  = fold_left (fun acc i => fadd acc (g2 i)) (seq 0 n) z.
Proof.
  intros Hg. apply fold_left_ext_in. intros i acc Hi.
  apply in_seq in Hi. rewrite Hg by lia. reflexivity.
Qed.

Lemma sum_big_sum v : Jnp.sum v = big_sum (length v) (fun i => nth i v fzero).
Proof.
  unfold Jnp.sum, big_sum. rewrite (fold_left_indexed fadd v fzero fzero 0).
  apply fold_left_ext_in. intros i acc _. rewrite Nat.sub_0_r. reflexivity.
Qed.

Lemma nth_zip_with_mul r t (c : nat) :
  length r = length t ->
  nth c (zip_with fmul r t) fzero
  = if (c <? length r)%nat then fmul (nth c r fzero) (nth c t fzero) else fzero.
Proof.
  revert t c. induction r as [|x r IH]; intros [|x' t] c Hl; try discriminate.
  - destruct c; reflexivity.
  - destruct c as [|c]; [reflexivity|]. cbn [zip_with nth length].
    rewrite IH by (cbn in Hl; lia). reflexivity.
Qed.

Lemma nth_zip_with_rows a y (i : nat) :
  length a = length y -> (i < length a)%nat ->
  nth i (zip_with (zip_with fmul) a y) [] = zip_with fmul (nth i a []) (nth i y []).
Proof.
  revert y i. induction a as [|r a IH]; intros [|t y] i Hl Hi; cbn in Hl, Hi; try lia.
  destruct i as [|i]; [reflexivity|]. cbn [zip_with nth]. apply IH; lia.
Qed.

Lemma nth_row_length rows cols a (i : nat) :
  has_shape rows cols a -> (i < rows)%nat -> length (nth i a []) = cols.
Proof.
  intros [Ha Hra] Hi. rewrite Forall_forall in Hra. apply Hra.
  apply list_elem_of_In, nth_In. lia.
Qed.

End ArrayFacts.

(** ** The loss *)

(** C5.  On a batch for which the network returns log-probabilities of the
    shape of the targets, [rows] by [classes], [cross_entropy_loss] returns
    the negative of the mean over the rows of the sum over the classes of
    log-probability times target. *)
Theorem cross_entropy_loss_spec {F : Type} `{SF : Scalar F} `{HK : Haiku F}
  (ps : Params) (x y logp : Jnp.matrix F) (rows classes : nat) :
  network_apply ps x = Ok logp ->
  has_shape rows classes logp ->
  has_shape rows classes y ->
  cross_entropy_loss ps x y = Ok (spec_cross_entropy rows classes logp y).
Proof.
  intros Hnet Hp Hy. unfold cross_entropy_loss. rewrite Hnet. cbn.
  rewrite (multiply_same_shape rows classes) by assumption. cbn. f_equal.
  unfold spec_cross_entropy, Jnp.mean, Jnp.sum_last. f_equal.
  pose proof (zip_with_shape rows classes logp y Hp Hy) as [Hlen Hrows].
  rewrite length_map, Hlen. f_equal.
  rewrite sum_big_sum, length_map, Hlen. unfold big_sum at 1 2.
  apply fold_left_ext_seq. intros i Hi.
  destruct Hp as [Hpl Hpr], Hy as [Hyl Hyr].
  change fzero with (Jnp.sum (F:=F) []) at 1. rewrite map_nth.
  rewrite nth_zip_with_rows by lia.
  assert (Hri : length (nth i logp []) = classes)
    by (apply (nth_row_length rows); [split; assumption|lia]).
  assert (Hti : length (nth i y []) = classes)
    by (apply (nth_row_length rows); [split; assumption|lia]).
  rewrite sum_big_sum, length_zip_with, Hri, Hti, Nat.min_id.
  apply fold_left_ext_seq. intros c Hc. unfold entry.
  rewrite nth_zip_with_mul by lia. rewrite Hri.
  destruct (Nat.ltb_spec c classes); [reflexivity|lia].
Qed.

(** ** The accuracy *)

Section AccuracyFacts.
Context {F : Type} `{SF : Scalar F}.

Lemma argmax_nonempty (v : list F) :
  (0 < length v)%nat -> exists k, Jnp.argmax v = Ok k.
Proof. destruct v as [|x v]; cbn; [lia|eauto]. Qed.

Lemma argmax_from_bounds (best : F) (besti i : nat) (v : list F) :
  (besti < i)%nat -> (Jnp.argmax_from best besti i v < i + length v)%nat.
Proof.
  revert best besti i. induction v as [|x v IH]; intros best besti i Hi; cbn; [lia|].
  destruct (fgtb x best).
  - specialize (IH x i (S i)). lia.
  - specialize (IH best besti (S i)). lia.
Qed.

(** The arg-max is a position of the row. *)
Lemma argmax_in_range (v : list F) (k : nat) :
  Jnp.argmax v = Ok k -> (k < length v)%nat.
Proof.
  destruct v as [|x v]; cbn; [discriminate|]. intros [= <-].
  pose proof (argmax_from_bounds x 0 1 v). lia.
Qed.

(** On rows of at least one class, [argmax_last] returns the row-wise
    arg-max. *)
Lemma argmax_last_rows rows cols (a : Jnp.matrix F) :
  has_shape rows cols a -> (0 < cols)%nat ->
  exists ks, Jnp.argmax_last a = Ok ks /\ length ks = rows /\
             Forall2 (fun r k => Jnp.argmax r = Ok k) a ks.
Proof.
  intros [Hl Hr] Hc. unfold Jnp.argmax_last.
  assert (Hex : exists ks, all_ok (map Jnp.argmax a) = Ok ks).
  { clear Hl. induction Hr as [|r a Hrl _ [ks IH]]; cbn [map all_ok]; [eauto|].
    destruct (argmax_nonempty r) as [k ->]; [lia|]. rewrite IH. cbn. eauto. }
  destruct Hex as [ks Hks]. exists ks. split; [exact Hks|]. split.
  - apply all_ok_length in Hks. rewrite length_map in Hks. lia.
  - apply all_ok_Forall2, Hks.
Qed.

(** The comparison vector lists the hits, row by row. *)
Lemma hits_rows (pred y : Jnp.matrix F) (ps ts : list nat) :
  Forall2 (fun r k => Jnp.argmax r = Ok k) pred ps ->
  Forall2 (fun r k => Jnp.argmax r = Ok k) y ts ->
  length pred = length y ->
  zip_with Nat.eqb ps ts = map (hit pred y) (seq 0 (length pred)).
Proof.
  intros Hp. revert y ts. induction Hp as [|r k pred ps Hr _ IH]; intros y ts Hy Hl.
  - reflexivity.
  - destruct Hy as [|t k' y ts Ht Hy]; [discriminate|].
    cbn [zip_with length seq map]. f_equal.
    + unfold hit. cbn [nth]. rewrite Hr, Ht. reflexivity.
    + rewrite (IH y ts Hy) by (cbn in Hl; lia).
      rewrite <- seq_shift, map_map. reflexivity.
Qed.

(** Summing a boolean vector read as numbers counts its [true]s. *)
Lemma sum_of_bool_count `{CL : !CountLaws F} (h : nat -> Datatypes.bool) (l : list nat) (n : nat) :
  fold_left fadd (map Jnp.of_bool (map h l)) (of_nat n)
  = of_nat (n + length (filter (fun i => h i = true) l)).
Proof.
  revert n. induction l as [|i l IH]; intros n; cbn [map fold_left].
  - rewrite filter_nil. cbn. f_equal. lia.
  - rewrite filter_cons. destruct (h i) eqn:Hi; cbn [Jnp.of_bool].
    + rewrite of_nat_hit, IH. rewrite decide_True by reflexivity.
      cbn [length]. f_equal. lia.
    + rewrite of_nat_miss, IH. rewrite decide_False by discriminate. reflexivity.
Qed.

(** With a strict order for [>], no entry of the row is greater than the
    entry at the arg-max. *)
Lemma argmax_from_greatest `{!OrderLaws F} (best : F) (besti i : nat) (v seen : list F) :
  Forall (fun e => fgtb e best = false) seen ->
  (seen ++ v) !! besti = Some best -> (besti < length seen)%nat ->
  i = length seen ->
  exists m, (seen ++ v) !! Jnp.argmax_from best besti i v = Some m /\
            Forall (fun e => fgtb e m = false) (seen ++ v).
Proof.
  revert best besti i seen. induction v as [|x v IH]; intros best besti i seen Hs Hb Hlt ->.
  - cbn [Jnp.argmax_from]. exists best. rewrite app_nil_r in *. auto.
  - cbn [Jnp.argmax_from]. destruct (fgtb x best) eqn:Hx.
    + destruct (IH x (length seen) (S (length seen)) (seen ++ [x])) as (m & Hm & Hall).
      * apply Forall_app. split; [|repeat constructor; apply fgtb_irrefl].
        eapply Forall_impl; [exact Hs|]. intros e He. cbn in He.
        destruct (fgtb e x) eqn:Hex; [|reflexivity].
        rewrite (fgtb_trans e x best Hex Hx) in He. discriminate.
      * rewrite <- app_assoc. cbn. apply list_lookup_middle. reflexivity.
      * rewrite length_app. cbn. lia.
      * rewrite length_app. cbn. lia.
      * rewrite <- app_assoc in Hm, Hall. cbn in Hm, Hall. eauto.
    + destruct (IH best besti (S (length seen)) (seen ++ [x])) as (m & Hm & Hall).
      * apply Forall_app. split; [exact Hs|repeat constructor; exact Hx].
      * rewrite <- app_assoc. exact Hb.
      * rewrite length_app. cbn. lia.
      * rewrite length_app. cbn. lia.
      * rewrite <- app_assoc in Hm, Hall. cbn in Hm, Hall. eauto.
Qed.

Lemma argmax_greatest `{!OrderLaws F} (v : list F) (k : nat) :
  Jnp.argmax v = Ok k ->
  exists m, v !! k = Some m /\ Forall (fun e => fgtb e m = false) v.
Proof.
  destruct v as [|x v]; cbn [Jnp.argmax]; [discriminate|]. intros [= <-].
  apply (argmax_from_greatest x 0 1 v [x]); try reflexivity; [|cbn; lia].
  repeat constructor. apply fgtb_irrefl.
Qed.

(** The arg-max of a one-hot row is its class. *)
Lemma argmax_from_zeros `{!OrderLaws F} (best : F) (besti i n : nat) :
  fgtb fzero best = false ->
  Jnp.argmax_from best besti i (replicate n fzero) = besti.
Proof.
  intros Hb. revert i. induction n as [|n IH]; intros i; cbn; [reflexivity|].
  rewrite Hb. apply IH.
Qed.

Lemma argmax_one_hot `{!OrderLaws F} (n k : nat) :
  (k < n)%nat -> Jnp.argmax (<[k := fone]> (replicate n fzero)) = Ok k.
Proof.
  intros Hk.
  assert (H01 : fgtb fzero fone = false).
  { destruct (fgtb fzero fone) eqn:H01; [|reflexivity].
    rewrite <- (fgtb_irrefl fzero). symmetry.
    apply (fgtb_trans _ _ _ H01 fgtb_one_zero). }
  assert (Hgen : forall n k best besti i, (k < n)%nat -> fgtb fone best = true ->
            Jnp.argmax_from best besti i (<[k := fone]> (replicate n fzero)) = (i + k)%nat).
  { clear n k Hk. induction n as [|n IH]; intros k best besti i Hk Hb; [lia|].
    destruct k as [|k].
    - change (<[0%nat := fone]> (replicate (S n) fzero))
        with (fone :: replicate n fzero).
      cbn [Jnp.argmax_from]. rewrite Hb, argmax_from_zeros by exact H01. lia.
    - change (<[S k := fone]> (replicate (S n) fzero))
        with (fzero :: <[k := fone]> (replicate n fzero)).
      cbn [Jnp.argmax_from]. destruct (fgtb fzero best) eqn:H0b.
      + rewrite (IH k fzero i (S i)) by (lia || apply fgtb_one_zero). lia.
      + rewrite (IH k best besti (S i)) by (lia || exact Hb). lia. }
  destruct n as [|n]; [lia|]. destruct k as [|k].
  - change (<[0%nat := fone]> (replicate (S n) fzero))
      with (fone :: replicate n fzero).
    cbn [Jnp.argmax]. rewrite argmax_from_zeros by exact H01. reflexivity.
  - change (<[S k := fone]> (replicate (S n) fzero))
      with (fzero :: <[k := fone]> (replicate n fzero)).
    cbn [Jnp.argmax].
    rewrite (Hgen n k fzero 0%nat 1%nat) by (lia || apply fgtb_one_zero). reflexivity.
Qed.

End AccuracyFacts.


(** ** The sign of the loss *)

Section SignFacts.
Context {F : Type} `{SF : Scalar F} `{SG : Signs F} `{SL : !SignLaws F}.

Lemma fold_add_nonpos (v : list F) (z : F) :
  fle z fzero -> Forall (fun e => fle e fzero) v -> fle (fold_left fadd v z) fzero.
Proof.
  intros Hz Hv. revert z Hz.
  induction Hv as [|e v He _ IH]; intros z Hz; cbn [fold_left]; [exact Hz|].
  apply IH, fadd_nonpos; assumption.
Qed.

Lemma sum_nonpos (v : list F) :
  Forall (fun e => fle e fzero) v -> fle (Jnp.sum v) fzero.
Proof. apply fold_add_nonpos, fle_zero. Qed.

Lemma one_hot_entries (t : list F) :
  one_hot_row t -> Forall (fun e => e = fzero \/ e = fone) t.
Proof.
  intros (k & _ & ->). apply Forall_insert; [|right; reflexivity].
  apply Forall_replicate. left. reflexivity.
Qed.

(** A row of entries that are at most 0, finite where the target is 0,
    times a one-hot row has entries that are at most 0. *)
Lemma mul_row_nonpos (r t : list F) :
  Forall2 (fun e t => fle e fzero /\ (t = fzero -> ffinite e)) r t ->
  one_hot_row t ->
  Forall (fun e => fle e fzero) (zip_with fmul r t).
Proof.
  intros Hr Ht. apply one_hot_entries in Ht.
  induction Hr as [|e e' r t [He Hfin] _ IH]; [constructor|].
  apply Forall_cons in Ht as [He' Ht]. cbn [zip_with].
  constructor; [|apply IH, Ht].
  destruct He' as [-> | ->].
  - apply fmul_zero_nonpos; [exact He|apply Hfin; reflexivity].
  - apply fmul_one_nonpos, He.
Qed.

Lemma mul_rows_nonpos (a y : Jnp.matrix F) :
  safe_log_probs a y -> one_hot y ->
  Forall (fun s => fle s fzero) (Jnp.sum_last (zip_with (zip_with fmul) a y)).
Proof.
  intros Ha Hy. induction Ha as [|r t a y Hr _ IH]; [constructor|].
  apply Forall_cons in Hy as [Ht Hy]. cbn [zip_with Jnp.sum_last map].
  constructor; [|apply IH, Hy].
  apply sum_nonpos, mul_row_nonpos; assumption.
Qed.

End SignFacts.

(** C7, as amended.  On a batch whose targets are one-hot rows, whose number
    of rows is a finite positive scalar, and for which the network returns
    log-probabilities of the shape of the targets that are all at most 0
    and are finite wherever the target entry is 0, [cross_entropy_loss]
    returns a value that is at least 0 (an infinity included).  Without
    the finiteness the claim fails in the program's arithmetic: see
    [cross_entropy_loss_nan_counterexample]. *)
Theorem cross_entropy_loss_nonneg {F : Type} `{SF : Scalar F} `{SG : Signs F}
  `{SL : !SignLaws F} `{HK : Haiku F}
  (ps : Params) (x y logp : Jnp.matrix F) (rows classes : nat) :
  network_apply ps x = Ok logp ->
  has_shape rows classes logp ->
  has_shape rows classes y ->
  fpos (of_nat rows) ->
  one_hot y ->
  safe_log_probs logp y ->
  exists loss, cross_entropy_loss ps x y = Ok loss /\ fle fzero loss.
Proof.
  intros Hnet Hp Hy Hrows Hoh Hneg. unfold cross_entropy_loss. rewrite Hnet. cbn.
  rewrite (multiply_same_shape rows classes) by assumption. cbn.
  eexists. split; [reflexivity|].
  apply fneg_nonpos. unfold Jnp.mean.
  pose proof (zip_with_shape rows classes logp y Hp Hy) as [Hlen _].
  unfold Jnp.sum_last at 2. rewrite length_map, Hlen.
  apply fdiv_nonpos; [|exact Hrows].
  apply sum_nonpos, mul_rows_nonpos; assumption.
Qed.

(** ** Purity *)

(** C8.  [accuracy] and [cross_entropy_loss] read nothing of the
    notebook's state and leave it as it was: called twice on the same
    parameters and data, in any two worlds and for a batch of any size,
    each returns the same value both times. *)
Theorem accuracy_loss_pure `{NR : NumpyRandom} {F : Type} `{SF : Scalar F} `{HK : Haiku F}
  (ps : Params) (x y : Jnp.matrix F) (w w' : World) :
  fst (call_accuracy ps x y w) = fst (call_accuracy ps x y w') /\
  snd (call_accuracy ps x y w) = w /\
  fst (call_cross_entropy_loss ps x y w) = fst (call_cross_entropy_loss ps x y w') /\
  snd (call_cross_entropy_loss ps x y w) = w.
Proof. repeat split. Qed.

(** ** The split, whatever the fraction *)

Lemma bind_Raise_inv {A B} (m : result A) (f : A -> result B) (e : exn) :
  m ≫= f = Raise e -> m = Raise e \/ exists a, m = Ok a /\ f a = Raise e.
Proof. destruct m as [a|e']; cbn; [eauto|]. intros [= ->]. auto. Qed.

(** X1.  Whenever cell 4 succeeds, for any fraction, the training and the
    validation arrays are a front part and the rest of the source array:
    put together they are the source array again, images and labels alike,
    and [train_samples + val_samples] is the number of samples.  (Outside
    the fractions [train_samples] need not be the number of training
    rows.) *)
Theorem split_partitions {Image Label : Type} (cfg : Config)
  (images : list Image) (labels : list Label) (env : Env Image Label) :
  split cfg images labels = Ok env ->
  train_images env ++ val_images env = images /\
  train_labels env ++ val_labels env = labels /\
  (length (train_images env) + length (val_images env))%nat = length images /\
  length (train_images env) = Py.slice_bound (length images) (train_samples env) /\
  train_samples env + val_samples env = Z.of_nat (length images).
Proof.
  intros Hs.
  pose proof (split_inv _ _ _ _ Hs)
    as (p & v & _ & _ & _ & Hvs & Hts & Hti & Hvi & Htl & Hvl & _).
  rewrite Hti, Hvi, Htl, Hvl, Hts, Hvs.
  repeat match goal with |- _ /\ _ => split end.
  - apply slice_to_from.
  - apply slice_to_from.
  - rewrite <- length_app, slice_to_from. reflexivity.
  - unfold Py.slice_to. rewrite length_take.
    pose proof (slice_bound_le (length images) (Z.of_nat (length images) - v)). lia.
  - lia.
Qed.

(** X2.  Cell 4 raises [ZeroDivisionError] exactly when the batch size is 0
    and the validation size could be computed. *)
Theorem split_zero_division {Image Label : Type} (cfg : Config)
  (images : list Image) (labels : list Label) :
  @split Image Label cfg images labels = Raise ZeroDivisionError <->
  batch_size cfg = 0 /\
  exists v, compute_val_samples (Z.of_nat (length images)) (validation_split cfg) = Ok v.
Proof.
  unfold split. split.
  - intros Hs. apply bind_Raise_inv in Hs as [Hv|(v & Hv & Hs)].
    + exfalso. unfold compute_val_samples in Hv.
      apply bind_Raise_inv in Hv as [Hp|(p & _ & Hi)].
      * unfold Float64.int_mul in Hp.
        apply bind_Raise_inv in Hp as [Ho|(nf & _ & Ho)]; [|discriminate].
        unfold Float64.of_int in Ho.
        destruct (binary_normalize _ _ _ _ _); discriminate.
      * destruct p; cbn in Hi; discriminate.
    + unfold Py.divmod in Hs.
      destruct (Z.eqb_spec (batch_size cfg) 0) as [Hb|Hb]; [eauto|discriminate].
  - intros (Hb & v & Hv). rewrite Hv. cbn. unfold Py.divmod. rewrite Hb. reflexivity.
Qed.

(** X3.  With a fraction that is not a number or is infinite, cell 4 raises
    [ValueError] or [OverflowError], whatever the dataset and the batch
    size. *)
Theorem split_non_finite_fraction {Image Label : Type} (b : Z)
  (images : list Image) (labels : list Label) (f : Float64.float) :
  match f with S754_nan | S754_infinity _ => True | _ => False end ->
  exists e,
    @split Image Label {| batch_size := b; validation_split := f |} images labels
    = Raise e /\ (e = ValueError \/ e = OverflowError).
Proof.
  intros Hf. unfold split, compute_val_samples, Float64.int_mul. cbn [validation_split].
  destruct (Float64.of_int (Z.of_nat (length images))) as [nf|e] eqn:Ho; cbn.
  - assert (Hnf : match nf with S754_infinity _ => False | _ => True end).
    { unfold Float64.of_int in Ho.
      destruct (binary_normalize _ _ _ _ _); inversion Ho; subst; exact I. }
    destruct f as [s|s| |s m e]; try contradiction;
      destruct nf as [s'|s'| |s' m' e']; try contradiction; cbn; eauto.
  - unfold Float64.of_int in Ho.
    destruct (binary_normalize _ _ _ _ _); inversion Ho; subst. eauto.
Qed.

(** X4.  With the fraction 0 there is no validation set: cell 4 keeps the
    whole array for training and leaves empty validation arrays. *)
Theorem split_fraction_zero {Image Label : Type} (b : Z) (s : Datatypes.bool)
  (images : list Image) (labels : list Label) :
  Z.of_nat (length images) < 2 ^ 53 ->
  b <> 0 ->
  exists env : Env Image Label,
    split {| batch_size := b; validation_split := S754_zero s |} images labels = Ok env /\
    val_samples env = 0 /\
    train_samples env = Z.of_nat (length images) /\
    train_images env = images /\ val_images env = [] /\
    train_labels env = take (length images) labels /\
    val_labels env = drop (length images) labels.
Proof.
  intros HN Hb. set (N := Z.of_nat (length images)).
  destruct (Float64Facts.of_int_bounded N) as (nf & Hnf & Hbn);
    [unfold Float64.prec, N; lia|].
  assert (Hv : compute_val_samples N (S754_zero s) = Ok 0).
  { unfold compute_val_samples, Float64.int_mul. rewrite Hnf. cbn.
    destruct nf as [s'|s'| |s' m' e']; cbn in Hbn; try contradiction; reflexivity. }
  unfold split. cbn [validation_split batch_size]. fold N. rewrite Hv. cbn.
  unfold Py.divmod. destruct (Z.eqb_spec b 0); [contradiction|]. cbn.
  eexists. split; [reflexivity|]. cbn.
  replace (N - 0) with N by lia.
  rewrite !slice_to_nonneg, !slice_from_nonneg by (unfold N; lia).
  unfold N. rewrite Nat2Z.id, take_ge, drop_ge by lia. repeat split; lia.
Qed.


(** ** More on the batch generator *)

Lemma take_rows_lookup {A} (l : list A) (idx : list nat) (r : list A) :
  take_rows l idx = Ok r -> Forall2 (fun i a => l !! i = Some a) idx r.
Proof.
  unfold take_rows. intros Hr. apply all_ok_Forall2 in Hr.
  eapply Forall2_impl; [exact Hr|]. intros i a. unfold item.
  destruct (l !! i); [congruence|discriminate].
Qed.

Lemma take_rows_Raise {A} (l : list A) (idx : list nat) (e : exn) :
  take_rows l idx = Raise e -> e = IndexError.
Proof.
  unfold take_rows. induction idx as [|i idx IH]; cbn [map all_ok]; [discriminate|].
  intros [Hi|(a & _ & Hr)]%bind_Raise_inv.
  - unfold item in Hi. destruct (l !! i); congruence.
  - apply bind_Raise_inv in Hr as [Hr|(r & _ & Hr)]; [auto|discriminate].
Qed.

Lemma take_rows_out_of_range {A} (l : list A) (idx : list nat) (i : nat) :
  i ∈ idx -> (length l <= i)%nat -> take_rows l idx = Raise IndexError.
Proof.
  intros Hi Hlen. destruct (take_rows l idx) as [r|e] eqn:Hr.
  - exfalso. apply take_rows_lookup in Hr.
    apply list_elem_of_lookup in Hi as [j Hj].
    destruct (Forall2_lookup_l _ _ _ _ _ Hr Hj) as (a & _ & Ha).
    apply lookup_lt_Some in Ha. lia.
  - f_equal. eapply take_rows_Raise, Hr.
Qed.

(** [split] alone fixes the number of batches. *)
Lemma split_num_batches {Image Label : Type} (cfg : Config)
  (images : list Image) (labels : list Label) (env : Env Image Label) :
  split cfg images labels = Ok env -> 1 <= batch_size cfg ->
  (num_batches env - 1) * batch_size cfg < train_samples env
    <= num_batches env * batch_size cfg.
Proof.
  intros Hs Hb.
  pose proof (split_inv _ _ _ _ Hs)
    as (p & v & _ & _ & _ & _ & Hts & _ & _ & _ & _ & Hnb).
  rewrite <- Hts in Hnb. rewrite Hnb.
  set (t := train_samples env). set (b := batch_size cfg) in *.
  pose proof (Z.div_mod t b ltac:(lia)) as Hdm.
  pose proof (Z.mod_pos_bound t b ltac:(lia)) as Hmb.
  unfold Py.bool, Py.int_of_bool.
  destruct (Z.eqb_spec (t mod b) 0) as [Hz|Hnz]; cbn [negb]; nia.
Qed.

Section StreamFacts.
Context `{NR : NumpyRandom} {Image Label : Type}.
Variable cfg : Config.
Variable env : Env Image Label.

#[local] Abbreviation N := (Z.to_nat (train_samples env)).
#[local] Abbreviation nb := (Z.to_nat (num_batches env)).

(** Inside a pass, [m] calls of [next] take the next [m] chunks. *)
Lemma consume_chunks fuel rng perm (m i : nat) bs :
  (i + m < nb)%nat ->
  all_ok (map (batch_at cfg env perm) (seq (S i) m)) = Ok bs ->
  consume cfg env fuel m (Suspended rng perm i)
  = Yielded (bs, Suspended rng perm (i + m)).
Proof.
  revert i bs. induction m as [|m IH]; intros i bs Hi Hbs.
  - cbn in Hbs. injection Hbs as <-. cbn. do 3 f_equal. lia.
  - cbn [seq map all_ok] in Hbs.
    apply bind_Ok_inv in Hbs as (b & Hb & Hbs).
    apply bind_Ok_inv in Hbs as (bs' & Hbs' & Hbs). injection Hbs as <-.
    cbn [consume next]. unfold for_loop.
    destruct (Z.ltb_spec (Z.of_nat (S i)) (num_batches env)) as [_|Hge]; [|lia].
    rewrite Hb. cbn. rewrite (IH (S i) bs') by (lia || exact Hbs'). cbn.
    do 3 f_equal. lia.
Qed.

(** [consume] of a sum, whatever the outcome. *)
Lemma consume_add fuel (a b : nat) g :
  consume cfg env fuel (a + b) g
  = ('(bs1, g1) ← consume cfg env fuel a g;
     '(bs2, g2) ← consume cfg env fuel b g1;
     Yielded (bs1 ++ bs2, g2)).
Proof.
  revert g. induction a as [|a IH]; intros g; cbn [consume Nat.add].
  - cbn. destruct (consume cfg env fuel b g) as [[bs2 g2]| |]; reflexivity.
  - destruct (next cfg env fuel g) as [[b0 g0]| |]; cbn; [|reflexivity..].
    rewrite IH. destruct (consume cfg env fuel a g0) as [[bs1 g1]| |]; cbn; [|reflexivity..].
    destruct (consume cfg env fuel b g1) as [[bs2 g2]| |]; reflexivity.
Qed.

(** The first call of a pass: from the boundary after [k] passes, the
    permutation of pass [k] is drawn and its chunk 0 is tried. *)
Lemma next_at_boundary fuel k :
  (0 < nb)%nat ->
  next cfg env (S fuel) (epoch_start env k)
  = (b ← of_result (batch_at cfg env (epoch_perm env k) 0);
     Yielded (b, Suspended (epoch_rng env (S k)) (epoch_perm env k) 0)).
Proof.
  intros Hnb.
  assert (Hw : forall rng, while_true cfg env (S fuel) rng
            = (b ← of_result (batch_at cfg env (fst (permutation rng N)) 0);
               Yielded (b, Suspended (snd (permutation rng N))
                                     (fst (permutation rng N)) 0))).
  { intros rng. cbn [while_true]. unfold np_permutation.
    destruct (permutation rng N) as [perm rng']. cbn [fst snd]. unfold for_loop.
    destruct (Z.ltb_spec (Z.of_nat 0) (num_batches env)) as [_|Hge]; [reflexivity|lia]. }
  destruct k as [|k']; cbn [epoch_start next].
  - rewrite Hw. reflexivity.
  - unfold for_loop.
    destruct (Z.ltb_spec (Z.of_nat (S (nb - 1))) (num_batches env)) as [Hlt|_]; [lia|].
    rewrite Hw. reflexivity.
Qed.

(** The first [r] calls of pass [k], when their chunks raise nothing. *)
Lemma consume_pass_prefix fuel k (r : nat) bs :
  (0 < r <= nb)%nat ->
  all_ok (map (batch_at cfg env (epoch_perm env k)) (seq 0 r)) = Ok bs ->
  consume cfg env (S fuel) r (epoch_start env k)
  = Yielded (bs, Suspended (epoch_rng env (S k)) (epoch_perm env k) (r - 1)).
Proof.
  intros Hr Hbs. destruct r as [|m]; [lia|].
  cbn [seq map all_ok] in Hbs.
  apply bind_Ok_inv in Hbs as (b & Hb & Hbs).
  apply bind_Ok_inv in Hbs as (bs' & Hbs' & Hbs). injection Hbs as <-.
  cbn [consume]. rewrite next_at_boundary by lia. rewrite Hb. cbn.
  rewrite (consume_chunks (S fuel) _ _ m 0 bs') by (lia || exact Hbs'). cbn.
  do 3 f_equal. lia.
Qed.

(** The first chunk of pass [k] that raises ends the pass. *)
Lemma consume_pass_raise fuel k (j rest : nat) bs e :
  (j + S rest <= nb)%nat ->
  all_ok (map (batch_at cfg env (epoch_perm env k)) (seq 0 j)) = Ok bs ->
  batch_at cfg env (epoch_perm env k) j = Raise e ->
  consume cfg env (S fuel) (j + S rest) (epoch_start env k) = Raised e.
Proof.
  intros Hj Hbs He. rewrite consume_add.
  destruct j as [|j'].
  - cbn [consume]. cbn. rewrite next_at_boundary by lia. rewrite He. reflexivity.
  - rewrite (consume_pass_prefix fuel k (S j') bs) by (lia || exact Hbs). cbn.
    unfold for_loop.
    destruct (Z.ltb_spec (Z.of_nat (S (j' - 0))) (num_batches env)) as [_|Hge]; [|lia].
    replace (S (j' - 0)) with (S j') by lia. rewrite He. reflexivity.
Qed.

End StreamFacts.

Lemma all_ok_last {A} (f : nat -> result A) (m : nat) (bs : list A) :
  all_ok (map f (seq 0 (S m))) = Ok bs -> exists b, last bs = Some b /\ f m = Ok b.
Proof.
  intros Hbs. apply all_ok_Forall2 in Hbs. rewrite seq_S in Hbs. cbn in Hbs.
  apply Forall2_app_inv_l in Hbs as (bs1 & bs2 & _ & H2 & ->).
  inversion H2 as [|? b ? bs2' Hb Hnil]; subst. inversion Hnil; subst.
  exists b. split; [apply last_snoc|exact Hb].
Qed.

Lemma all_ok_first_raise {A B} (f : A -> result B) (E : exn) (l : list A) (a : A) :
  (forall a' e, f a' = Raise e -> e = E) ->
  a ∈ l -> (exists e, f a = Raise e) ->
  exists l1 a' l2 bs,
    l = l1 ++ a' :: l2 /\ all_ok (map f l1) = Ok bs /\ f a' = Raise E.
Proof.
  intros HE Ha Hr. induction l as [|x l IH]; [inversion Ha|].
  destruct (f x) as [b|e] eqn:Hx.
  - assert (Hin : a ∈ l).
    { apply elem_of_cons in Ha as [->|Ha]; [|exact Ha].
      destruct Hr as [e He]. congruence. }
    destruct (IH Hin) as (l1 & a' & l2 & bs & -> & Hbs & Ha').
    exists (x :: l1), a', l2, (b :: bs). repeat split; [|exact Ha'].
    cbn [map all_ok]. rewrite Hx, Hbs. reflexivity.
  - exists [], x, l, []. repeat split. rewrite Hx. f_equal. eapply HE, Hx.
Qed.

Lemma batch_at_Raise `{NR : NumpyRandom} {Image Label : Type} (cfg : Config)
  (env : Env Image Label) (perm : list nat) (i : nat) (e : exn) :
  batch_at cfg env perm i = Raise e -> e = IndexError.
Proof.
  unfold batch_at. intros [Hx|(x & _ & Hy)]%bind_Raise_inv.
  - eapply take_rows_Raise, Hx.
  - apply bind_Raise_inv in Hy as [Hy|(y & _ & Hy)]; [|discriminate].
    eapply take_rows_Raise, Hy.
Qed.

Lemma seq_split_inv (n : nat) (l1 l2 : list nat) (a : nat) :
  seq 0 n = l1 ++ a :: l2 ->
  l1 = seq 0 (length l1) /\ a = length l1 /\ n = (length l1 + S (length l2))%nat.
Proof.
  intros Hs.
  assert (Hn : n = (length l1 + S (length l2))%nat).
  { pose proof (f_equal length Hs) as Hlen.
    rewrite length_seq, length_app in Hlen. exact Hlen. }
  rewrite Hn, seq_app in Hs. cbn [seq Nat.add] in Hs.
  apply app_inj_1 in Hs as [H1 H2]; [|rewrite length_seq; reflexivity].
  injection H2 as Ha _. auto.
Qed.

(** X5.  When the training set is empty (a validation fraction of 1 or
    more), [range(num_batches)] is empty in every pass of [while True]:
    the first [next] on the generator never yields, however long it runs. *)
Theorem empty_training_set_never_yields `{NR : NumpyRandom} {Image Label : Type}
  (cfg : Config) (images : list Image) (labels : list Label)
  (env : Env Image Label) (fuel : nat) :
  split cfg images labels = Ok env ->
  1 <= batch_size cfg ->
  train_samples env <= 0 ->
  next cfg env fuel (data_stream tt) = OutOfFuel.
Proof.
  intros Hs Hb Hts. pose proof (split_num_batches _ _ _ _ Hs Hb) as [Hlo _].
  cbn [data_stream next]. apply while_true_empty. nia.
Qed.

(** X6.  Whatever [next] yields, the two halves of the batch are rows of
    the training images and of the training labels at the same indices:
    one slice [batch_idx] of the current permutation selects both, so the
    [j]-th image of a batch always goes with the [j]-th label. *)
Theorem batch_rows_paired `{NR : NumpyRandom} {Image Label : Type} (cfg : Config)
  (env : Env Image Label) (fuel : nat) (g g' : gen_state)
  (x : list Image) (y : list Label) :
  next cfg env fuel g = Yielded ((x, y), g') ->
  exists rng perm i,
    g' = Suspended rng perm i /\
    Forall2 (fun k a => train_images env !! k = Some a) (batch_idx cfg perm i) x /\
    Forall2 (fun k c => train_labels env !! k = Some c) (batch_idx cfg perm i) y.
Proof.
  intros Hn. apply next_yield in Hn as (rng & perm & i & Hat & ->).
  apply batch_at_inv in Hat as [Hx Hy]. cbn [fst snd] in Hx, Hy.
  exists rng, perm, i. split; [reflexivity|].
  split; eapply take_rows_lookup; eassumption.
Qed.

(** X7.  With a non-empty training set, the [n]-th batch of a fresh
    generator is the batch at chunk [n mod num_batches] of the permutation
    drawn for pass [n / num_batches]; it has [batch_size] rows, except
    that the last batch of a pass has what is left of the training set. *)
Theorem nth_batch_closed_form `{NR : NumpyRandom} {Image Label : Type}
  (cfg : Config) (images : list Image) (labels : list Label)
  (env : Env Image Label) (n fuel : nat) :
  split cfg images labels = Ok env ->
  1 <= batch_size cfg ->
  Float64.nonneg (validation_split cfg) ->
  length labels = length images ->
  0 < train_samples env ->
  let nb := Z.to_nat (num_batches env) in
  exists x y,
    nth_batch cfg env (S fuel) n (data_stream tt) = Yielded (x, y) /\
    batch_at cfg env (epoch_perm env (n / nb)) (n mod nb) = Ok (x, y) /\
    length x = Nat.min (Z.to_nat (batch_size cfg))
                 (Z.to_nat (train_samples env) - n mod nb * Z.to_nat (batch_size cfg)) /\
    length y = length x.
Proof.
  intros Hs Hb Hf Hl Hne nb.
  pose proof (num_batches_pos cfg images labels env Hs Hb Hf Hl Hne) as Hnb.
  fold nb in Hnb.
  set (k := (n / nb)%nat). set (r := (n mod nb)%nat).
  assert (Hr : (r < nb)%nat) by (apply Nat.mod_upper_bound; lia).
  assert (Hn : S n = (k * nb + S r)%nat).
  { pose proof (Nat.div_mod_eq n nb). unfold k, r. lia. }
  assert (Hperm : epoch_perm env k ≡ₚ seq 0 (Z.to_nat (train_samples env)))
    by apply permutation_perm.
  destruct (consume_epochs cfg images labels env Hs Hb Hf Hl Hne fuel k) as [bs0 Hc0].
  destruct (all_batches_ok cfg images labels env Hs Hb Hf Hl Hne
              (epoch_perm env k) (seq 0 (S r)) Hperm) as [bs1 Hbs1].
  pose proof (consume_pass_prefix cfg env fuel k (S r) bs1 ltac:(fold nb; lia) Hbs1) as Hc1.
  assert (Hc : consume cfg env (S fuel) (S n) Created
               = Yielded (bs0 ++ bs1,
                          Suspended (epoch_rng env (S k)) (epoch_perm env k) (S r - 1))).
  { fold nb in Hc0. rewrite Hn, consume_add, Hc0. cbn -[consume]. rewrite Hc1. reflexivity. }
  apply consume_S_nth in Hc as (b & Hb' & Hlast).
  apply all_ok_last in Hbs1 as (b1 & Hl1 & Hat).
  rewrite last_app, Hl1 in Hlast. injection Hlast as <-.
  destruct b1 as [x y]. exists x, y. split; [exact Hb'|]. split; [exact Hat|].
  apply batch_at_rows in Hat as [Hx Hy].
  rewrite batch_idx_take_drop in Hx, Hy by exact Hb.
  rewrite Hy, Hx, length_take, length_drop.
  apply Permutation_length in Hperm. rewrite length_seq in Hperm. rewrite Hperm.
  split; reflexivity.
Qed.

(** X8.  When there are fewer labels than training samples, the training
    samples being at most the images (no negative validation fraction),
    the permutation holds an index that the labels do not have: the first
    pass does not complete, one of its [next] calls raises [IndexError]. *)
Theorem short_arrays_index_error `{NR : NumpyRandom} {Image Label : Type}
  (cfg : Config) (images : list Image) (labels : list Label)
  (env : Env Image Label) (fuel : nat) :
  split cfg images labels = Ok env ->
  1 <= batch_size cfg ->
  train_samples env <= Z.of_nat (length images) ->
  Z.of_nat (length labels) < train_samples env ->
  consume cfg env (S fuel) (Z.to_nat (num_batches env)) (data_stream tt)
  = Raised IndexError.
Proof.
  intros Hs Hb Hle Hlab. pose proof (split_num_batches _ _ _ _ Hs Hb) as [_ Hhi].
  assert (Hshort : Z.of_nat (length (train_labels env)) < train_samples env).
  { pose proof (split_inv _ _ _ _ Hs)
      as (p & v & _ & _ & _ & _ & _ & _ & _ & Htl & _ & _).
    rewrite Htl. unfold Py.slice_to. rewrite length_take. lia. }
  set (perm := epoch_perm env 0).
  assert (Hperm : perm ≡ₚ seq 0 (Z.to_nat (train_samples env)))
    by apply permutation_perm.
  assert (Hlen : length perm = Z.to_nat (train_samples env)).
  { apply Permutation_length in Hperm. rewrite length_seq in Hperm. exact Hperm. }
  (* an index of the permutation that the labels do not have *)
  assert (Hbad : exists m, m ∈ perm /\ (length (train_labels env) <= m)%nat).
  { exists (length (train_labels env)). split; [|lia].
    rewrite Hperm. apply elem_of_seq. lia. }
  destruct Hbad as (m & Hm & Hout).
  (* the chunk that holds it *)
  rewrite <- (epoch_chunks_concat cfg env perm Hb) in Hm by lia.
  apply list_elem_of_In, in_concat in Hm as (chunk & Hchunk & Hm).
  unfold epoch_chunks in Hchunk. apply in_map_iff in Hchunk as (j & <- & Hj).
  apply list_elem_of_In in Hm, Hj.
  assert (Hraise : exists e, batch_at cfg env perm j = Raise e).
  { destruct (batch_at cfg env perm j) as [b|e] eqn:Hat; [|eauto]. exfalso.
    apply batch_at_inv in Hat as [_ Hy].
    rewrite (take_rows_out_of_range _ _ m Hm Hout) in Hy. discriminate. }
  destruct (all_ok_first_raise (batch_at cfg env perm) IndexError _ j
              (batch_at_Raise cfg env perm) Hj Hraise)
    as (l1 & j' & l2 & bs & Hseq & Hbs & Hj').
  apply seq_split_inv in Hseq as (H1 & -> & Hnb).
  rewrite H1 in Hbs. rewrite Hnb.
  apply (consume_pass_raise cfg env fuel 0 (length l1) (length l2) bs);
    [lia|exact Hbs|exact Hj'].
Qed.

(** X9.  The generator never ends by itself.  When [train_samples] is at
    most the number of training images (the permutation is then no longer
    than an array that the program holds), [next] on a generator that has
    not failed before never raises [StopIteration]: the only exception it
    can raise is the [IndexError] of a row index out of range. *)
Theorem next_raises_only_index_error `{NR : NumpyRandom} {Image Label : Type}
  (cfg : Config) (env : Env Image Label) (fuel : nat) (g : gen_state) (e : exn) :
  g <> Finished ->
  train_samples env <= Z.of_nat (length (train_images env)) ->
  next cfg env fuel g = (Raised e : outcome (@batch Image Label * gen_state)) ->
  e = IndexError.
Proof.
  intros Hg _.
  assert (Hfor : forall rng perm i o,
            for_loop cfg env rng perm i = Some o -> o = Raised e -> e = IndexError).
  { intros rng perm i o. unfold for_loop.
    destruct (Z.of_nat i <? num_batches env); [|discriminate].
    intros [= <-]. destruct (batch_at cfg env perm i) as [b|e'] eqn:Hat; cbn;
      [discriminate|].
    intros [= <-]. eapply batch_at_Raise, Hat. }
  assert (Hw : forall rng, while_true cfg env fuel rng = Raised e -> e = IndexError).
  { induction fuel as [|fuel' IH]; intros rng; cbn [while_true]; [discriminate|].
    destruct (np_permutation rng (train_samples env)) as [perm rng'].
    destruct (for_loop cfg env rng' perm 0) as [o|] eqn:Hfl; [|apply IH].
    apply (Hfor _ _ _ _ Hfl). }
  destruct g as [|rng perm i|]; cbn [next]; [apply Hw| |contradiction].
  destruct (for_loop cfg env rng perm (S i)) as [o|] eqn:Hfl; [|apply Hw].
  apply (Hfor _ _ _ _ Hfl).
Qed.

(** ** The network, and the metrics on one-hot encoded labels *)

Section OneHotFacts.
Context {F : Type} `{SF : Scalar F}.

Lemma one_hot_encode_shape (classes : nat) (labels : list nat) :
  has_shape (length labels) classes (map (one_hot_encode classes) labels).
Proof.
  split; [apply length_map|]. apply Forall_forall. intros r Hr.
  apply list_elem_of_fmap in Hr as (k & -> & _).
  unfold one_hot_encode. rewrite length_insert, length_replicate. reflexivity.
Qed.

Lemma one_hot_encode_one_hot (classes : nat) (labels : list nat) :
  Forall (fun k => (k < classes)%nat) labels ->
  one_hot (map (one_hot_encode classes) labels).
Proof.
  intros Hl. unfold one_hot. apply Forall_fmap.
  eapply Forall_impl; [exact Hl|]. intros k Hk. cbn. unfold one_hot_row, one_hot_encode.
  exists k. rewrite length_insert, length_replicate. split; [exact Hk|reflexivity].
Qed.

(** The arg-max of an encoded label is the label. *)
Lemma argmax_last_one_hot `{OL : !OrderLaws F} (classes : nat) (labels : list nat) :
  Forall (fun k => (k < classes)%nat) labels ->
  Jnp.argmax_last (map (one_hot_encode classes) labels) = Ok labels.
Proof.
  unfold Jnp.argmax_last. induction 1 as [|k labels Hk _ IH]; [reflexivity|].
  cbn [map all_ok]. pose proof (argmax_one_hot classes k Hk) as Hk'.
  change (Jnp.argmax (one_hot_encode classes k) = Ok k) in Hk'.
  rewrite Hk', IH. reflexivity.
Qed.

Lemma sum_of_hits `{CL : !CountLaws F} (ks ls : list nat) (n : nat) :
  fold_left fadd (map Jnp.of_bool (zip_with Nat.eqb ks ls)) (of_nat n)
  = of_nat (n + length (filter (fun p => p.1 = p.2) (zip ks ls))).
Proof.
  revert ls n. induction ks as [|k ks IH]; intros [|l ls] n;
    try (cbn; f_equal; lia).
  cbn [zip_with map fold_left]. change (zip (k :: ks) (l :: ls)) with ((k, l) :: zip ks ls).
  rewrite filter_cons. cbn [fst snd].
  destruct (Nat.eqb_spec k l) as [Heq|Hne]; cbn [Jnp.of_bool].
  - rewrite of_nat_hit, IH, decide_True by exact Heq. cbn [length]. f_equal. lia.
  - rewrite of_nat_miss, IH, decide_False by exact Hne. reflexivity.
Qed.

Section Exact.
Context `{AL : !ArithLaws F}.
#[local] Existing Instance feq_equiv.

Lemma fold_add_feq (v v' : list F) (z z' : F) :
  Forall2 feq v v' -> feq z z' ->
  feq (fold_left fadd v z) (fold_left fadd v' z').
Proof.
  intros Hv. revert z z'. induction Hv as [|a a' v v' Ha _ IH]; intros z z' Hz;
    cbn [fold_left]; [exact Hz|].
  apply IH, fadd_feq; assumption.
Qed.

(** A row times a row of zeros adds nothing. *)
Lemma dot_zeros (r : list F) (n : nat) (z : F) :
  feq (fold_left fadd (zip_with fmul r (replicate n fzero)) z) z.
Proof.
  revert n z. induction r as [|a r IH]; intros [|n] z; cbn [replicate zip_with fold_left];
    try reflexivity.
  rewrite IH. etransitivity; [|apply fadd_zero_r].
  apply fadd_feq; [reflexivity|apply fmul_zero].
Qed.

(** A row times the one-hot row of class [k] adds the entry [k]. *)
Lemma dot_one_hot (r : list F) (k n : nat) (z : F) :
  (k < length r)%nat -> length r = n ->
  feq (fold_left fadd (zip_with fmul r (<[k := fone]> (replicate n fzero))) z)
      (fadd z (nth k r fzero)).
Proof.
  revert k n z. induction r as [|a r IH]; intros k [|n] z Hk Hn; cbn in Hk, Hn; try lia.
  destruct k as [|k].
  - change (<[0%nat := fone]> (replicate (S n) fzero)) with (fone :: replicate n fzero).
    cbn [zip_with fold_left nth]. rewrite dot_zeros.
    apply fadd_feq; [reflexivity|apply fmul_one].
  - change (<[S k := fone]> (replicate (S n) fzero))
      with (fzero :: <[k := fone]> (replicate n fzero)).
    cbn [zip_with fold_left nth]. rewrite IH by lia.
    apply fadd_feq; [|reflexivity].
    etransitivity; [|apply fadd_zero_r].
    apply fadd_feq; [reflexivity|apply fmul_zero].
Qed.

Lemma rows_one_hot (classes : nat) (logp : Jnp.matrix F) (labels : list nat) :
  Forall (fun r => length r = classes) logp ->
  Forall (fun k => (k < classes)%nat) labels ->
  Forall2 feq
    (Jnp.sum_last (zip_with (zip_with fmul) logp (map (one_hot_encode classes) labels)))
    (zip_with (fun r k => nth k r fzero) logp labels).
Proof.
  intros Hp. revert labels. induction Hp as [|r logp Hr _ IH]; intros labels Hl;
    [constructor|].
  destruct Hl as [|k labels Hk Hl]; [constructor|].
  cbn [map zip_with Jnp.sum_last]. constructor; [|apply IH, Hl].
  unfold Jnp.sum, one_hot_encode. rewrite dot_one_hot by lia. apply fadd_zero_l.
Qed.

End Exact.
End OneHotFacts.


(** X11.  On one-hot encoded labels and in exact arithmetic, the loss is
    the negative of the mean, over the rows, of the log-probability that
    the network gives to the row's label. *)
Theorem cross_entropy_true_class {F : Type} `{SF : Scalar F} `{AL : !ArithLaws F}
  `{HK : Haiku F}
  (ps : Params) (x logp : Jnp.matrix F) (labels : list nat) (classes : nat) :
  network_apply ps x = Ok logp ->
  has_shape (length labels) classes logp ->
  Forall (fun k => (k < classes)%nat) labels ->
  exists loss,
    cross_entropy_loss ps x (map (one_hot_encode classes) labels) = Ok loss /\
    feq loss
      (fneg (fdiv (Jnp.sum (zip_with (fun r k => nth k r fzero) logp labels))
                  (of_nat (length labels)))).
Proof.
  intros Hnet Hp Hl.
  pose proof (one_hot_encode_shape classes labels) as Hy.
  unfold cross_entropy_loss. rewrite Hnet. cbn.
  rewrite (multiply_same_shape _ _ _ _ Hp Hy). cbn.
  eexists. split; [reflexivity|].
  pose proof (zip_with_shape _ _ _ _ Hp Hy) as [Hlen _].
  unfold Jnp.mean. unfold Jnp.sum_last at 2. rewrite length_map, Hlen.
  apply fneg_feq, fdiv_feq. unfold Jnp.sum.
  apply fold_add_feq; [|apply feq_equiv].
  apply rows_one_hot; [apply Hp|exact Hl].
Qed.

(** ** The training driver (notebook cells 7 and 8) *)

(** One step of a bind whose left side is a value or an exception. *)
Ltac bind_step := cbn [mbind outcome_bind result_bind of_result].
Tactic Notation "bind_step" "in" hyp(H) :=
  cbn [mbind outcome_bind result_bind of_result] in H.

Section DriverFacts.
Context `{NR : NumpyRandom} {F : Type} `{SF : Scalar F} `{HK : Haiku F}
        `{OP : !Optax F}.
Variable cfg : Config.
Variable env : Env (list F) (list F).

#[local] Abbreviation nb := (Z.to_nat (num_batches env)).

Lemma fold_updates_app (bs1 bs2 : list (list (list F) * list (list F)))
  (s : Params * OptState) :
  fold_updates (bs1 ++ bs2) s = fold_updates bs1 s ≫= fold_updates bs2.
Proof.
  revert s. induction bs1 as [|b bs1 IH]; intros s; [reflexivity|].
  cbn [app fold_updates]. destruct (update_step s b) as [s'|e]; bind_step; [apply IH|reflexivity].
Qed.

(** With at least one batch per pass, one unit of fuel is enough for any
    [next]. *)
Lemma next_terminates fuel (g : gen_state) :
  0 < num_batches env ->
  next cfg env (S fuel) g <> (OutOfFuel : outcome (@batch (list F) (list F) * gen_state)).
Proof.
  intros Hnb.
  assert (Hw : forall rng, while_true cfg env (S fuel) rng <> OutOfFuel).
  { intros rng. cbn [while_true]. destruct (np_permutation rng _) as [perm rng'].
    unfold for_loop.
    destruct (Z.ltb_spec (Z.of_nat 0) (num_batches env)) as [_|Hge]; [|lia].
    destruct (batch_at cfg env perm 0); discriminate. }
  destruct g as [|rng perm i|]; cbn [next]; [apply Hw| |discriminate].
  unfold for_loop. destruct (Z.of_nat (S i) <? num_batches env); [|apply Hw].
  destruct (batch_at cfg env perm (S i)); discriminate.
Qed.

Lemma train_steps_terminates fuel (n : nat) (st : Train) :
  0 < num_batches env \/ n = 0%nat ->
  train_steps cfg env (S fuel) n st <> OutOfFuel.
Proof.
  revert st. induction n as [|n IH]; intros st Hn; cbn [train_steps]; [discriminate|].
  destruct Hn as [Hnb|Hn]; [|discriminate]. unfold train_step.
  pose proof (next_terminates fuel (t_batches st) Hnb) as Hnext.
  destruct (next cfg env (S fuel) (t_batches st)) as [[b g]|e|]; bind_step;
    [|discriminate|congruence].
  destruct (update_step (t_params st, t_opt_state st) b) as [[ps os]|e]; bind_step;
    [|discriminate].
  apply IH. left. exact Hnb.
Qed.

Lemma train_epoch_terminates fuel (st : Train) (epoch : nat) :
  train_epoch cfg env (S fuel) st epoch <> OutOfFuel.
Proof.
  unfold train_epoch.
  assert (Hn : 0 < num_batches env \/ nb = 0%nat) by lia.
  pose proof (train_steps_terminates fuel nb st Hn) as Hsteps.
  destruct (train_steps cfg env (S fuel) nb st) as [st1|e|]; bind_step;
    [|discriminate|congruence].
  destruct (accuracy_percent (t_params st1) (train_images env) (train_labels env));
    bind_step; [|discriminate].
  destruct (accuracy_percent (t_params st1) (val_images env) (val_labels env));
    bind_step; discriminate.
Qed.

Lemma train_epochs_terminates fuel (epochs : list nat) (st : Train) :
  train_epochs cfg env (S fuel) epochs st <> OutOfFuel.
Proof.
  revert st. induction epochs as [|e es IH]; intros st; cbn [train_epochs];
    [discriminate|].
  pose proof (train_epoch_terminates fuel st e) as He.
  destruct (train_epoch cfg env (S fuel) st e) as [st'|e'|]; bind_step;
    [apply IH|discriminate|congruence].
Qed.

(** The inner loop, read off a successful run. *)
Lemma train_steps_inv fuel (n : nat) (st st' : Train) :
  train_steps cfg env fuel n st = Yielded st' ->
  exists bs,
    consume cfg env fuel n (t_batches st) = Yielded (bs, t_batches st') /\
    fold_updates bs (t_params st, t_opt_state st)
    = Ok (t_params st', t_opt_state st') /\
    t_out st' = t_out st.
Proof.
  revert st. induction n as [|n IH]; intros st; cbn [train_steps consume].
  - intros [= <-]. exists []. auto.
  - unfold train_step.
    destruct (next cfg env fuel (t_batches st)) as [[b g]|e|]; bind_step; [|discriminate..].
    destruct (update_step (t_params st, t_opt_state st) b) as [[ps os]|e] eqn:Hu; bind_step;
      [|discriminate].
    intros Hrest. apply IH in Hrest as (bs & Hc & Hf & Ho).
    cbn [t_params t_opt_state t_batches t_out] in Hc, Hf, Ho.
    exists (b :: bs). rewrite Hc. bind_step. cbn [fold_updates]. rewrite Hu.
    bind_step. auto.
Qed.

Lemma train_epoch_inv fuel (st st' : Train) (epoch : nat) :
  train_epoch cfg env fuel st epoch = Yielded st' ->
  exists st1 train_acc val_acc,
    train_steps cfg env fuel nb st = Yielded st1 /\
    accuracy_percent (t_params st1) (train_images env) (train_labels env)
    = Ok train_acc /\
    accuracy_percent (t_params st1) (val_images env) (val_labels env) = Ok val_acc /\
    t_params st' = t_params st1 /\ t_opt_state st' = t_opt_state st1 /\
    t_batches st' = t_batches st1 /\
    t_out st' = t_out st1 ++ epoch_lines epoch (train_acc, val_acc).
Proof.
  unfold train_epoch.
  destruct (train_steps cfg env fuel nb st) as [st1|e|] eqn:Hsteps; bind_step;
    [|discriminate..].
  destruct (accuracy_percent (t_params st1) (train_images env) (train_labels env))
    as [ta|e] eqn:Ha; bind_step; [|discriminate].
  destruct (accuracy_percent (t_params st1) (val_images env) (val_labels env))
    as [va|e] eqn:Hv; bind_step; [|discriminate].
  intros [= <-]. exists st1, ta, va.
  cbn [t_params t_opt_state t_batches t_out]. auto 10.
Qed.

(** What the epochs print. *)
Lemma train_epochs_out fuel (epochs : list nat) (st st' : Train) :
  train_epochs cfg env fuel epochs st = Yielded st' ->
  exists accs,
    length accs = length epochs /\
    t_out st' = t_out st ++ concat (zip_with epoch_lines epochs accs).
Proof.
  revert st. induction epochs as [|e es IH]; intros st; cbn [train_epochs].
  - intros [= <-]. exists []. rewrite app_nil_r. auto.
  - destruct (train_epoch cfg env fuel st e) as [st1|e'|] eqn:He; bind_step; [|discriminate..].
    intros Hrest. apply IH in Hrest as (accs & Hlen & Hout).
    apply train_epoch_inv in He
      as (st0 & ta & va & Hsteps & _ & _ & _ & _ & _ & Hout1).
    apply train_steps_inv in Hsteps as (_ & _ & _ & Hout0).
    exists ((ta, va) :: accs). split; [cbn [length]; lia|].
    rewrite Hout, Hout1, Hout0. cbn [zip_with concat]. rewrite <- app_assoc. reflexivity.
Qed.

End DriverFacts.

(** X13.  Cell 8 never hangs in the generator: given one unit of fuel it
    finishes or raises.  When the training set has a batch, every [next]
    yields or raises in its first pass of [while True]; when it has none,
    the inner loop makes no call of [next] at all. *)
Theorem cell8_terminates `{NR : NumpyRandom} {F : Type} `{SF : Scalar F}
  `{HK : Haiku F} `{OP : !Optax F} (cfg : Config) (env : Env (list F) (list F))
  (fuel : nat) (num_epochs : Z) (test_images test_labels : Jnp.matrix F) (st : Train) :
  (exists st', cell8 cfg env (S fuel) num_epochs test_images test_labels st = Yielded st')
  \/ (exists e, cell8 cfg env (S fuel) num_epochs test_images test_labels st = Raised e).
Proof.
  unfold cell8.
  pose proof (train_epochs_terminates cfg env fuel (seq 0 (Z.to_nat num_epochs))
                (print StartingTraining st)) as Ht.
  destruct (train_epochs cfg env (S fuel) _ _) as [st1|e|]; bind_step; [|eauto|congruence].
  destruct (accuracy_percent (t_params st1) test_images test_labels); bind_step; eauto.
Qed.

(** X14.  The inner loop of cell 8 succeeds exactly when its [n] calls of
    [next] yield [n] batches and the optimiser updates, folded over these
    batches in order, succeed; it then leaves the parameters and the
    optimiser state of the fold, the generator where the calls left it,
    and prints nothing. *)
Theorem train_steps_fold `{NR : NumpyRandom} {F : Type} `{SF : Scalar F}
  `{HK : Haiku F} `{OP : !Optax F} (cfg : Config) (env : Env (list F) (list F))
  (fuel n : nat) (st st' : Train) :
  train_steps cfg env fuel n st = Yielded st' <->
  exists bs,
    consume cfg env fuel n (t_batches st) = Yielded (bs, t_batches st') /\
    fold_updates bs (t_params st, t_opt_state st)
    = Ok (t_params st', t_opt_state st') /\
    t_out st' = t_out st.
Proof.
  split; [apply train_steps_inv|].
  revert st. induction n as [|n IH]; intros st (bs & Hc & Hf & Ho);
    cbn [train_steps consume] in *.
  - injection Hc as <- Hg. cbn in Hf. injection Hf as Hp Hs.
    destruct st, st'; cbn in *. congruence.
  - unfold train_step.
    destruct (next cfg env fuel (t_batches st)) as [[b g]|e|]; bind_step in Hc;
      bind_step; [|discriminate..].
    destruct (consume cfg env fuel n g) as [[bs' g']|e|] eqn:Hc'; bind_step in Hc;
      [|discriminate..].
    injection Hc as <- Hg. cbn [fold_updates] in Hf.
    destruct (update_step (t_params st, t_opt_state st) b) as [[ps os]|e];
      bind_step in Hf; bind_step; [|discriminate].
    apply IH. exists bs'. cbn [t_params t_opt_state t_batches t_out].
    rewrite Hc', Hg. auto.
Qed.

(** X15.  Epochs of the driver and passes of the generator coincide.  Run
    from the state of cell 7 on a non-empty training set, a successful
    cell 8 has trained, in epoch [e], on exactly the batches of the
    [e]-th permutation, in order: the final parameters and optimiser state
    are the fold of the updates over these batches from
    [(params, opt_init(params))], and the generator is left at the end of
    pass [num_epochs]. *)
Theorem cell8_trains_on_passes `{NR : NumpyRandom} {F : Type} `{SF : Scalar F}
  `{HK : Haiku F} `{OP : !Optax F} (cfg : Config)
  (images labels : Jnp.matrix F) (env : Env (list F) (list F))
  (fuel : nat) (num_epochs : Z) (test_images test_labels : Jnp.matrix F)
  (ps : Params) (st' : Train) :
  split cfg images labels = Ok env ->
  1 <= batch_size cfg ->
  Float64.nonneg (validation_split cfg) ->
  length labels = length images ->
  0 < train_samples env ->
  cell8 cfg env (S fuel) num_epochs test_images test_labels (initial_train ps)
  = Yielded st' ->
  exists bss,
    Forall2 (fun e bs => epoch_batches cfg env (epoch_perm env e) = Ok bs)
            (seq 0 (Z.to_nat num_epochs)) bss /\
    fold_updates (concat bss) (ps, opt_init ps)
    = Ok (t_params st', t_opt_state st') /\
    t_batches st' = epoch_start env (Z.to_nat num_epochs).
Proof.
  intros Hs Hb Hf Hl Hne Hrun.
  (* the loop over epochs, from any pass boundary *)
  assert (Hloop : forall (n k : nat) (epochs : list nat) (st st1 : Train),
            length epochs = n ->
            t_batches st = epoch_start env k ->
            train_epochs cfg env (S fuel) epochs st = Yielded st1 ->
            exists bss,
              Forall2 (fun e bs => epoch_batches cfg env (epoch_perm env e) = Ok bs)
                      (seq k n) bss /\
              fold_updates (concat bss) (t_params st, t_opt_state st)
              = Ok (t_params st1, t_opt_state st1) /\
              t_batches st1 = epoch_start env (k + n)).
  { induction n as [|n IH]; intros k [|e es] st st1 Hlen Hg Ht; try discriminate.
    - cbn in Ht. injection Ht as <-. exists []. rewrite Nat.add_0_r.
      repeat split; [constructor|exact Hg].
    - cbn [train_epochs] in Ht.
      destruct (train_epoch cfg env (S fuel) st e) as [st0|e'|] eqn:He; bind_step in Ht;
        [|discriminate..].
      apply train_epoch_inv in He
        as (sta & ta & va & Hsteps & _ & _ & Hp0 & Ho0 & Hg0 & _).
      apply train_steps_inv in Hsteps as (bs & Hc & Hfold & _).
      destruct (consume_epoch cfg images labels env Hs Hb Hf Hl Hne fuel k)
        as (bs0 & Hbs0 & Hc0).
      rewrite Hg, Hc0 in Hc. injection Hc as <- Hga.
      destruct (IH (S k) es st0 st1) as (bss & Hbss & Hfold' & Hg1);
        [cbn in Hlen; lia|rewrite Hg0, <- Hga; reflexivity|exact Ht|].
      exists (bs0 :: bss). change (concat (bs0 :: bss)) with (bs0 ++ concat bss).
      cbn [seq]. split; [constructor; assumption|].
      split; [|rewrite Hg1; f_equal; lia].
      etransitivity; [apply fold_updates_app|]. rewrite Hfold. bind_step.
      rewrite <- Hp0, <- Ho0. exact Hfold'. }
  unfold cell8 in Hrun.
  destruct (train_epochs cfg env (S fuel) (seq 0 (Z.to_nat num_epochs))
              (print StartingTraining (initial_train ps))) as [st1|e|] eqn:Ht;
    bind_step in Hrun; [|discriminate..].
  destruct (accuracy_percent (t_params st1) test_images test_labels) as [ta|e];
    bind_step in Hrun; [|discriminate].
  injection Hrun as <-. cbn [print t_params t_opt_state t_batches].
  apply (Hloop (Z.to_nat num_epochs) 0%nat) in Ht; [exact Ht| |reflexivity].
  apply length_seq.
Qed.

(** X16.  A successful cell 8 prints, after what was printed before, the
    line that training starts, three lines for each epoch number of
    [range(num_epochs)] in ascending order, the line that testing starts
    and the test accuracy of the final parameters, in percent. *)
Theorem cell8_output `{NR : NumpyRandom} {F : Type} `{SF : Scalar F}
  `{HK : Haiku F} `{OP : !Optax F} (cfg : Config) (env : Env (list F) (list F))
  (fuel : nat) (num_epochs : Z) (test_images test_labels : Jnp.matrix F)
  (st st' : Train) :
  cell8 cfg env fuel num_epochs test_images test_labels st = Yielded st' ->
  exists accs test_acc,
    length accs = Z.to_nat num_epochs /\
    accuracy_percent (t_params st') test_images test_labels = Ok test_acc /\
    t_out st'
    = t_out st ++ StartingTraining
        :: concat (zip_with epoch_lines (seq 0 (Z.to_nat num_epochs)) accs)
        ++ [StartingTesting; TestAccLine test_acc].
Proof.
  unfold cell8. intros Hrun.
  destruct (train_epochs cfg env fuel (seq 0 (Z.to_nat num_epochs))
              (print StartingTraining st)) as [st1|e|] eqn:Ht;
    bind_step in Hrun; [|discriminate..].
  destruct (accuracy_percent (t_params st1) test_images test_labels) as [ta|e] eqn:Ha;
    bind_step in Hrun; [|discriminate].
  injection Hrun as <-.
  apply train_epochs_out in Ht as (accs & Hlen & Hout).
  exists accs, ta. rewrite length_seq in Hlen.
  split; [exact Hlen|]. split; [exact Ha|].
  cbn [print t_out] in *. rewrite Hout, <- !app_assoc. reflexivity.
Qed.

(** * Concrete runs *)

Section Runs.
Import Rational.
#[local] Existing Instance Lcg.random.
#[local] Existing Instance scalar.
#[local] Existing Instance haiku.
#[local] Existing Instance count_laws.

(** Cell 4 on the five samples. *)
Example split_five : split cfg5 images5 labels5 = Ok env5.
Proof. reflexivity. Qed.

(** [0.2] is the double nearest to [1/5]. *)
Example lit_0_2_rounds_fifth :
  SFdiv Float64.prec Float64.emax
        (binary_normalize Float64.prec Float64.emax 1 0 false)
        (binary_normalize Float64.prec Float64.emax 5 0 false)
  = Float64.lit_0_2.
Proof. vm_compute. reflexivity. Qed.

(** The notebook's own numbers: 60000 samples, fraction 0.2. *)
Example val_samples_mnist :
  compute_val_samples 60000 Float64.lit_0_2 = Ok 12000.
Proof. vm_compute. reflexivity. Qed.

(** The product is the float product: with the double nearest to 0.29,
    [int(100 * 0.29)] is 28. *)
Example val_samples_float_product :
  compute_val_samples 100 (S754_finite false 5224175567749775 (-54)) = Ok 28.
Proof. vm_compute. reflexivity. Qed.

(** With no training sample the first [next] does not return, whatever the
    fuel. *)
Example empty_training_set_hangs (fuel : nat) :
  next cfg5 {| train_samples := 0; val_samples := 0;
               train_images := []; val_images := [];
               train_labels := []; val_labels := [];
               num_batches := 0 |} fuel (data_stream tt)
  = (OutOfFuel : outcome (@batch (list Q) (list Q) * gen_state)).
Proof. apply while_true_empty. cbn. lia. Qed.

Lemma lit_0_2_fraction : Float64.is_fraction Float64.lit_0_2.
Proof.
  eexists. split; [reflexivity|].
  split; vm_compute; intro Hc; discriminate Hc.
Qed.

Lemma lit_0_2_nonneg : Float64.nonneg (validation_split cfg5).
Proof. reflexivity. Qed.


Lemma batch_rows_match_witness :
  1 <= batch_size cfg5 /\
  exists x y g,
    next cfg5 env5 1 (data_stream tt) = Yielded ((x, y), g) /\
    length x = length y /\ Z.of_nat (length x) <= batch_size cfg5.
Proof.
  assert (Hb : 1 <= batch_size cfg5) by (cbn; lia).
  split; [exact Hb|].
  assert (Hn : next cfg5 env5 1 (data_stream tt)
               = Yielded (([[0; 1]; [2; 1]]%Q, [unit_row 10 1; unit_row 10 1]),
                          @Suspended Lcg.random 1449466924 [1; 3; 2; 0]%nat 0))
    by reflexivity.
  eexists _, _, _. split; [exact Hn|].
  exact (batch_rows_match cfg5 env5 1 _ _ _ _ Hb Hn).
Defined.

Lemma epoch_is_chunked_permutation_witness :
  split cfg5 images5 labels5 = Ok env5 /\
  1 <= batch_size cfg5 /\
  Float64.nonneg (validation_split cfg5) /\
  length labels5 = length images5 /\
  0 < train_samples env5 /\
  epoch_perm env5 1 = [0; 3; 2; 1]%nat /\
  concat (epoch_chunks cfg5 env5 (epoch_perm env5 1))
  = epoch_perm env5 1 /\
  num_batches env5 = (train_samples env5 + batch_size cfg5 - 1) / batch_size cfg5.
Proof.
  assert (Hs : split cfg5 images5 labels5 = Ok env5) by reflexivity.
  assert (Hb : 1 <= batch_size cfg5) by (cbn; lia).
  assert (Hl : length labels5 = length images5) by reflexivity.
  assert (Hne : 0 < train_samples env5) by (cbn; lia).
  pose proof (epoch_is_chunked_permutation cfg5 images5 labels5 env5 1 0
                Hs Hb lit_0_2_nonneg Hl Hne) as (Hceil & _ & _ & _ & Hcat & _).
  exact (conj Hs (conj Hb (conj lit_0_2_nonneg (conj Hl (conj Hne
          (conj eq_refl (conj Hcat Hceil))))))).
Defined.

Lemma data_stream_endless_witness :
  split cfg5 images5 labels5 = Ok env5 /\
  1 <= batch_size cfg5 /\
  Float64.nonneg (validation_split cfg5) /\
  length labels5 = length images5 /\
  0 < train_samples env5 /\
  exists b, nth_batch cfg5 env5 1 7 (data_stream tt) = Yielded b.
Proof.
  assert (Hs : split cfg5 images5 labels5 = Ok env5) by reflexivity.
  assert (Hb : 1 <= batch_size cfg5) by (cbn; lia).
  assert (Hl : length labels5 = length images5) by reflexivity.
  assert (Hne : 0 < train_samples env5) by (cbn; lia).
  exact (conj Hs (conj Hb (conj lit_0_2_nonneg (conj Hl (conj Hne
          (data_stream_endless cfg5 images5 labels5 env5 7 0
             Hs Hb lit_0_2_nonneg Hl Hne)))))).
Defined.

Lemma restart_repeats_first_epoch_witness :
  split cfg5 images5 labels5 = Ok env5 /\
  1 <= batch_size cfg5 /\
  Float64.nonneg (validation_split cfg5) /\
  length labels5 = length images5 /\
  0 < train_samples env5 /\
  exists bs w1 w2,
    next_batches_n cfg5 env5 1 2 (assign_data_stream world5) = (Yielded bs, w1) /\
    next_batches_n cfg5 env5 1 2 (assign_data_stream w1) = (Yielded bs, w2).
Proof.
  assert (Hs : split cfg5 images5 labels5 = Ok env5) by reflexivity.
  assert (Hb : 1 <= batch_size cfg5) by (cbn; lia).
  assert (Hl : length labels5 = length images5) by reflexivity.
  assert (Hne : 0 < train_samples env5) by (cbn; lia).
  destruct (restart_repeats_first_epoch
              cfg5 images5 labels5 env5 world5 0 Hs Hb lit_0_2_nonneg Hl Hne)
    as (bs & w1 & w2 & H1 & H2 & _).
  refine (conj Hs (conj Hb (conj lit_0_2_nonneg (conj Hl (conj Hne _))))).
  exists bs, w1, w2. exact (conj H1 H2).
Defined.

(** C1, as stated, fails: on the five samples the generator restarted
    after one pass (two batches) yields the very batches of the first pass,
    not different ones. *)
Lemma restart_differs_counterexample :
  ~ (forall bs1 w1 bs2 w2,
       next_batches_n cfg5 env5 1 2
         (assign_data_stream world5) = (Yielded bs1, w1) ->
       next_batches_n cfg5 env5 1 2
         (assign_data_stream w1) = (Yielded bs2, w2) ->
       bs1 <> bs2).
Proof.
  intros Hdiff.
  refine (Hdiff _ _ _ _ _ _ eq_refl); [reflexivity|reflexivity].
Qed.

(** The two passes of the example above, in full. *)
Example restart_five :
  let first_pass : list (@batch (list Q) (list Q)) :=
    [ ([[0; 1]; [2; 1]]%Q, [unit_row 10 1; unit_row 10 1]);
      ([[1; 1]; [1; 0]]%Q, [unit_row 10 1; unit_row 10 0]) ] in
  let w1 := @Build_World Lcg.random Q haiku 2024
              (@Suspended Lcg.random 1449466924 [1; 3; 2; 0]%nat 1) [] in
  next_batches_n cfg5 env5 1 2 (assign_data_stream world5) = (Yielded first_pass, w1) /\
  next_batches_n cfg5 env5 1 2 (assign_data_stream w1) = (Yielded first_pass, w1).
Proof. split; reflexivity. Qed.

Lemma network_apply_x4 : network_apply small_params x4 = Ok logp4.
Proof. vm_compute. reflexivity. Qed.

Lemma shape_logp4 : has_shape 4 10 logp4.
Proof. split; [reflexivity|]. repeat constructor. Qed.

Lemma shape_y4 : has_shape 4 10 y4.
Proof. split; [reflexivity|]. repeat constructor. Qed.

Lemma one_hot_y4 : one_hot y4.
Proof.
  repeat constructor.
  - exists 0%nat. split; [cbn; lia|reflexivity].
  - exists 1%nat. split; [cbn; lia|reflexivity].
  - exists 1%nat. split; [cbn; lia|reflexivity].
  - exists 1%nat. split; [cbn; lia|reflexivity].
Qed.

Lemma cross_entropy_loss_spec_witness :
  network_apply small_params x4 = Ok logp4 /\
  has_shape 4 10 logp4 /\
  has_shape 4 10 y4 /\
  cross_entropy_loss small_params x4 y4
  = Ok (spec_cross_entropy 4 10 logp4 y4) /\
  spec_cross_entropy 4 10 logp4 y4 = (1 # 4)%Q.
Proof.
  exact (conj network_apply_x4 (conj shape_logp4 (conj shape_y4 (conj
           (cross_entropy_loss_spec small_params x4 y4 logp4 4 10
              network_apply_x4 shape_logp4 shape_y4)
           eq_refl)))).
Defined.


#[local] Existing Instance order_laws.
#[local] Existing Instance arith_laws.
#[local] Existing Instance optax.

Lemma split_partitions_witness :
  split cfg5 images5 labels5 = Ok env5 /\
  train_images env5 ++ val_images env5 = images5 /\
  train_labels env5 ++ val_labels env5 = labels5 /\
  train_samples env5 + val_samples env5 = 5.
Proof.
  assert (Hs : split cfg5 images5 labels5 = Ok env5) by reflexivity.
  destruct (split_partitions cfg5 images5 labels5 env5 Hs) as (Hi & Hl & _ & _ & Hn).
  exact (conj Hs (conj Hi (conj Hl Hn))).
Defined.

(** Batch size 0 on the five samples. *)
Example split_batch_size_zero :
  split {| batch_size := 0; validation_split := Float64.lit_0_2 |} images5 labels5
  = Raise ZeroDivisionError.
Proof. reflexivity. Qed.

Lemma split_non_finite_fraction_witness :
  exists e,
    split {| batch_size := 2; validation_split := S754_nan |} images5 labels5 = Raise e /\
    (e = ValueError \/ e = OverflowError).
Proof. exact (split_non_finite_fraction 2 images5 labels5 S754_nan I). Defined.

Lemma split_fraction_zero_witness :
  Z.of_nat (length images5) < 2 ^ 53 /\ 2 <> 0 /\
  exists env : Env (list Q) (list Q),
    split {| batch_size := 2; validation_split := S754_zero false |} images5 labels5
    = Ok env /\
    train_images env = images5 /\ val_images env = [].
Proof.
  assert (HN : Z.of_nat (length images5) < 2 ^ 53) by (vm_compute; reflexivity).
  assert (Hb : 2 <> 0) by lia.
  destruct (split_fraction_zero 2 false images5 labels5 HN Hb)
    as (env & Hs & _ & _ & Hi & Hv & _).
  refine (conj HN (conj Hb _)). exists env. exact (conj Hs (conj Hi Hv)).
Defined.

Lemma empty_training_set_never_yields_witness :
  split cfg_all_val images5 labels5 = Ok env_all_val /\
  1 <= batch_size cfg_all_val /\
  train_samples env_all_val <= 0 /\
  next cfg_all_val env_all_val 1000 (data_stream tt) = OutOfFuel.
Proof.
  assert (Hs : split cfg_all_val images5 labels5 = Ok env_all_val) by reflexivity.
  assert (Hb : 1 <= batch_size cfg_all_val) by (cbn; lia).
  assert (Hts : train_samples env_all_val <= 0) by (cbn; lia).
  exact (conj Hs (conj Hb (conj Hts
           (empty_training_set_never_yields cfg_all_val images5 labels5 env_all_val 1000
              Hs Hb Hts)))).
Defined.

Lemma batch_rows_paired_witness :
  exists x y rng perm i,
    next cfg5 env5 1 (data_stream tt) = Yielded ((x, y), Suspended rng perm i) /\
    batch_idx cfg5 perm i = [1; 3]%nat /\
    Forall2 (fun k a => train_images env5 !! k = Some a) (batch_idx cfg5 perm i) x /\
    Forall2 (fun k c => train_labels env5 !! k = Some c) (batch_idx cfg5 perm i) y.
Proof.
  assert (Hn : next cfg5 env5 1 (data_stream tt)
               = Yielded (([[0; 1]; [2; 1]]%Q, [unit_row 10 1; unit_row 10 1]),
                          @Suspended Lcg.random 1449466924 [1; 3; 2; 0]%nat 0))
    by reflexivity.
  destruct (batch_rows_paired cfg5 env5 1 _ _ _ _ Hn)
    as (rng & perm & i & Hg & Hx & Hy).
  injection Hg as <- <- <-.
  eexists _, _, _, _, _. exact (conj Hn (conj eq_refl (conj Hx Hy))).
Defined.

Lemma nth_batch_closed_form_witness :
  split cfg5 images5 labels5 = Ok env5 /\
  1 <= batch_size cfg5 /\
  Float64.nonneg (validation_split cfg5) /\
  length labels5 = length images5 /\
  0 < train_samples env5 /\
  exists x y,
    nth_batch cfg5 env5 1 7 (data_stream tt) = Yielded (x, y) /\
    batch_at cfg5 env5 (epoch_perm env5 3) 1 = Ok (x, y) /\
    length x = 2%nat.
Proof.
  assert (Hs : split cfg5 images5 labels5 = Ok env5) by reflexivity.
  assert (Hb : 1 <= batch_size cfg5) by (cbn; lia).
  assert (Hf : Float64.nonneg (validation_split cfg5)) by reflexivity.
  assert (Hl : length labels5 = length images5) by reflexivity.
  assert (Hne : 0 < train_samples env5) by (cbn; lia).
  destruct (nth_batch_closed_form cfg5 images5 labels5 env5 7 0 Hs Hb Hf Hl Hne)
    as (x & y & Hn & Hat & Hx & _).
  refine (conj Hs (conj Hb (conj Hf (conj Hl (conj Hne _))))).
  exists x, y. exact (conj Hn (conj Hat Hx)).
Defined.

Lemma short_arrays_index_error_witness :
  split cfg5 images5 (take 3 labels5) = Ok env_short /\
  1 <= batch_size cfg5 /\
  train_samples env_short <= Z.of_nat (length images5) /\
  Z.of_nat (length (take 3 labels5)) < train_samples env_short /\
  consume cfg5 env_short 1 (Z.to_nat (num_batches env_short)) (data_stream tt)
  = Raised IndexError.
Proof.
  assert (Hs : split cfg5 images5 (take 3 labels5) = Ok env_short) by reflexivity.
  assert (Hb : 1 <= batch_size cfg5) by (cbn; lia).
  assert (Hle : train_samples env_short <= Z.of_nat (length images5)) by (cbn; lia).
  assert (Hlab : Z.of_nat (length (take 3 labels5)) < train_samples env_short)
    by (cbn; lia).
  exact (conj Hs (conj Hb (conj Hle (conj Hlab
           (short_arrays_index_error cfg5 images5 (take 3 labels5) env_short 0
              Hs Hb Hle Hlab))))).
Defined.

Lemma next_raises_only_index_error_witness :
  exists e : exn,
    data_stream tt <> Finished /\
    train_samples env_short <= Z.of_nat (length (train_images env_short)) /\
    next cfg5 env_short 1 (data_stream tt) = Raised e /\
    e = IndexError.
Proof.
  eexists.
  assert (Hg : @data_stream Lcg.random tt <> Finished) by discriminate.
  assert (Hle : train_samples env_short <= Z.of_nat (length (train_images env_short)))
    by (cbn; lia).
  refine ((fun Hn =>
             conj Hg (conj Hle (conj Hn
               (next_raises_only_index_error cfg5 env_short 1 (data_stream tt) _
                  Hg Hle Hn))))
            eq_refl).
Defined.

Lemma classes4_in_range : Forall (fun k => (k < 10)%nat) classes4.
Proof. repeat constructor. Qed.


Lemma cross_entropy_true_class_witness :
  network_apply small_params x4 = Ok logp4 /\
  has_shape (length classes4) 10 logp4 /\
  Forall (fun k => (k < 10)%nat) classes4 /\
  exists loss,
    cross_entropy_loss small_params x4 (map (one_hot_encode 10) classes4) = Ok loss /\
    feq loss
      (fneg (fdiv (Jnp.sum (zip_with (fun r k => nth k r fzero) logp4 classes4))
                  (of_nat (length classes4)))).
Proof.
  exact (conj network_apply_x4 (conj shape_logp4 (conj classes4_in_range
           (cross_entropy_true_class small_params x4 logp4 classes4 10
              network_apply_x4 shape_logp4 classes4_in_range)))).
Defined.

Lemma cell8_run5 :
  cell8 cfg5 env5 1 1 (drop 4 images5) (drop 4 labels5) (initial_train small_params)
  = Yielded trained5.
Proof. reflexivity. Qed.

Lemma cell8_trains_on_passes_witness :
  split cfg5 images5 labels5 = Ok env5 /\
  1 <= batch_size cfg5 /\
  Float64.nonneg (validation_split cfg5) /\
  length labels5 = length images5 /\
  0 < train_samples env5 /\
  cell8 cfg5 env5 1 1 (drop 4 images5) (drop 4 labels5) (initial_train small_params)
  = Yielded trained5 /\
  exists bss,
    Forall2 (fun e bs => epoch_batches cfg5 env5 (epoch_perm env5 e) = Ok bs)
            (seq 0 1) bss /\
    fold_updates (concat bss) (small_params, opt_init small_params)
    = Ok (t_params trained5, t_opt_state trained5) /\
    t_batches trained5 = epoch_start env5 1.
Proof.
  assert (Hs : split cfg5 images5 labels5 = Ok env5) by reflexivity.
  assert (Hb : 1 <= batch_size cfg5) by (cbn; lia).
  assert (Hf : Float64.nonneg (validation_split cfg5)) by reflexivity.
  assert (Hl : length labels5 = length images5) by reflexivity.
  assert (Hne : 0 < train_samples env5) by (cbn; lia).
  exact (conj Hs (conj Hb (conj Hf (conj Hl (conj Hne (conj cell8_run5
           (cell8_trains_on_passes cfg5 images5 labels5 env5 0 1
              (drop 4 images5) (drop 4 labels5) small_params trained5
              Hs Hb Hf Hl Hne cell8_run5))))))).
Defined.

Lemma cell8_output_witness :
  cell8 cfg5 env5 1 1 (drop 4 images5) (drop 4 labels5) (initial_train small_params)
  = Yielded trained5 /\
  exists accs test_acc,
    length accs = 1%nat /\
    accuracy_percent (t_params trained5) (drop 4 images5) (drop 4 labels5)
    = Ok test_acc /\
    t_out trained5
    = [] ++ StartingTraining
        :: concat (zip_with epoch_lines (seq 0 1) accs)
        ++ [StartingTesting; TestAccLine test_acc].
Proof.
  exact (conj cell8_run5
           (cell8_output cfg5 env5 1 1 (drop 4 images5) (drop 4 labels5)
              (initial_train small_params) trained5 cell8_run5)).
Defined.

(** The first epoch on the five samples, step by step. *)
Example train_steps_five :
  train_steps cfg5 env5 1 2 (initial_train small_params)
  = Yielded (@Build_Train Lcg.random Q haiku optax small_params 2%nat
               (@Suspended Lcg.random 1449466924 [1; 3; 2; 0]%nat 1) []) /\
  consume cfg5 env5 1 2 (data_stream tt)
  = Yielded (first_pass5, @Suspended Lcg.random 1449466924 [1; 3; 2; 0]%nat 1) /\
  fold_updates first_pass5 (small_params, opt_init small_params)
  = Ok (small_params, 2%nat).
Proof. repeat split. Qed.

End Runs.

(** ** Runs in binary32 *)

Section FloatRuns.
Import Float32.
#[local] Existing Instance scalar.
#[local] Existing Instance signs.
#[local] Existing Instance haiku.
#[local] Existing Instance Float32Facts.sign_laws.

(** Logits further apart than the largest float: the shifted logit of
    class 1 overflows to minus infinity, and so does its log-probability. *)
Lemma network_apply_wide : network_apply (bias_params wide_logits) x1 = Ok wide_logp.
Proof. vm_compute. reflexivity. Qed.

(** The loss on that input is a NaN. *)
Example loss_wide :
  cross_entropy_loss (bias_params wide_logits) x1 class0 = Ok S754_nan.
Proof. vm_compute. reflexivity. Qed.

(** C7, as stated, fails: all log-probabilities are at most 0 and the
    target is one-hot, but the product of minus infinity and the target
    entry 0 is a NaN, and so is the loss. *)
Lemma cross_entropy_loss_nan_counterexample :
  ~ (forall (ps : Params) (x y logp : Jnp.matrix float) (rows classes : nat),
       network_apply ps x = Ok logp ->
       has_shape rows classes logp ->
       has_shape rows classes y ->
       (0 < rows)%nat ->
       one_hot y ->
       Forall (Forall (fun e => fle e fzero)) logp ->
       exists loss, cross_entropy_loss ps x y = Ok loss /\ fle fzero loss).
Proof.
  intros Hclaim.
  destruct (Hclaim (bias_params wide_logits) x1 class0 wide_logp 1%nat 10%nat)
    as (loss & Hloss & Hle).
  - exact network_apply_wide.
  - split; [reflexivity|]. repeat constructor.
  - split; [reflexivity|]. repeat constructor.
  - lia.
  - repeat constructor. exists 0%nat. split; [cbn; lia|reflexivity].
  - repeat constructor.
  - rewrite loss_wide in Hloss. injection Hloss as <-. discriminate Hle.
Qed.

Lemma network_apply_sharp : network_apply (bias_params sharp_logits) x1 = Ok sharp_logp.
Proof. vm_compute. reflexivity. Qed.

Lemma shape_sharp_logp : has_shape 1 10 sharp_logp.
Proof. split; [reflexivity|]. repeat constructor. Qed.

Lemma shape_class1 : has_shape 1 10 class1.
Proof. split; [reflexivity|]. repeat constructor. Qed.

Lemma one_hot_class1 : one_hot class1.
Proof. repeat constructor. exists 1%nat. split; [cbn; lia|reflexivity]. Qed.

Lemma safe_sharp_logp : safe_log_probs sharp_logp class1.
Proof. repeat constructor. Qed.

Lemma cross_entropy_loss_nonneg_witness :
  network_apply (bias_params sharp_logits) x1 = Ok sharp_logp /\
  has_shape 1 10 sharp_logp /\
  has_shape 1 10 class1 /\
  fpos (of_nat 1) /\
  one_hot class1 /\
  safe_log_probs sharp_logp class1 /\
  cross_entropy_loss (bias_params sharp_logits) x1 class1 = Ok (SFopp minus_200) /\
  exists loss,
    cross_entropy_loss (bias_params sharp_logits) x1 class1 = Ok loss /\
    fle fzero loss.
Proof.
  assert (Hr : fpos (of_nat 1)) by exact I.
  assert (Hv : cross_entropy_loss (bias_params sharp_logits) x1 class1
               = Ok (SFopp minus_200)) by (vm_compute; reflexivity).
  exact (conj network_apply_sharp (conj shape_sharp_logp (conj shape_class1 (conj Hr
           (conj one_hot_class1 (conj safe_sharp_logp (conj Hv
              (cross_entropy_loss_nonneg
                 (bias_params sharp_logits) x1 class1 sharp_logp 1 10
                 network_apply_sharp shape_sharp_logp shape_class1 Hr
                 one_hot_class1 safe_sharp_logp)))))))).
Defined.

End FloatRuns.
